(** * gh-dir-diff: glob matcher, unified-diff assembler, shareable URLs and
      the signed OAuth state token

    A shallow embedding of [app.js] (browser side) and of
    [gh-dir-diff-oauth/src/index.ts] (Cloudflare worker), with the
    properties of the specification stated and proved over it.

    Conventions of the embedding.

    - A JavaScript string is a sequence of UTF-16 code units.  It is
      modelled by [string], one [ascii] per code unit, so the model covers
      the strings whose code units are all below 256 (the Latin-1 range).
      Indexing, [split], [slice], regular-expression matching without the
      [u] flag and [encodeURIComponent] all work per code unit, as in
      JavaScript.
    - [undefined] is [None] of an [option].
    - The numbers that occur (millisecond clocks, line counts) are integers
      far below 2^53 and are modelled by [Z]; [NaN] is explicit.
    - A call that may throw, and a promise that may reject, is a value of
      [outcome]. *)

From Stdlib Require Import String Ascii List ZArith NArith Lia Bool Arith.
From Stdlib Require Import Init.Byte.
Import ListNotations.

Local Open Scope string_scope.
Local Open Scope list_scope.

(* ================================================================= *)
(** ** JavaScript strings *)

Module JS.

(** [s.startsWith(p)] *)
Fixpoint startsWith (p s : string) : bool :=
  match p, s with
  | EmptyString, _ => true
  | String a p', String b s' => Ascii.eqb a b && startsWith p' s'
  | String _ _, EmptyString => false
  end.

(** Prepend a code unit to the first piece of a split. *)
Definition consHead (a : ascii) (l : list string) : list string :=
  match l with
  | [] => [String a ""]
  | x :: xs => String a x :: xs
  end.

(** [s.split(sep)] for a non-empty separator: pieces between the leftmost,
    non-overlapping occurrences of [sep].  [k] counts the code units of an
    occurrence of the separator that are still to be skipped. *)
Fixpoint splitFrom (sep : string) (k : nat) (s : string) : list string :=
  match s with
  | EmptyString => [""]
  | String a s' =>
      match k with
      | S k' => splitFrom sep k' s'
      | O =>
          if startsWith sep s
          then "" :: splitFrom sep (String.length sep - 1) s'
          else consHead a (splitFrom sep 0 s')
      end
  end.

Definition split (sep s : string) : list string := splitFrom sep 0 s.

(** [l.join(sep)] *)
Fixpoint join (sep : string) (l : list string) : string :=
  match l with
  | [] => ""
  | [x] => x
  | x :: xs => x ++ sep ++ join sep xs
  end.

(** Destructuring [const [x0, x1] = l]: the element or [undefined]. *)
Definition at_ (l : list string) (i : nat) : option string := nth_error l i.

(** [!v] for a value that is a string or [undefined]. *)
Definition falsy (v : option string) : bool :=
  match v with
  | None => true
  | Some EmptyString => true
  | Some _ => false
  end.

(** [a || b] on strings. *)
Definition orElse (v : option string) (d : string) : string :=
  if falsy v then d else match v with Some s => s | None => d end.

(** [a === b] for values that are strings or [undefined]. *)
Definition strictEq (a b : option string) : bool :=
  match a, b with
  | None, None => true
  | Some x, Some y => String.eqb x y
  | _, _ => false
  end.

(** White space and line terminators of the language, in the Latin-1
    range: TAB, LF, VT, FF, CR, SP and NBSP. *)
Definition isWhiteSpace (c : ascii) : bool :=
  let n := nat_of_ascii c in
  ((9 <=? n) && (n <=? 13) || (n =? 32) || (n =? 160))%nat.

Fixpoint trimStart (s : string) : string :=
  match s with
  | EmptyString => ""
  | String c s' => if isWhiteSpace c then trimStart s' else s
  end.

(** [trimEnd]: a code unit is kept when it is not white space or when
    something is kept after it. *)
Fixpoint trimEnd (s : string) : string :=
  match s with
  | EmptyString => ""
  | String c s' =>
      match trimEnd s' with
      | EmptyString => if isWhiteSpace c then "" else String c ""
      | t => String c t
      end
  end.

Definition trim (s : string) : string := trimEnd (trimStart s).

(** The last code unit, and [s.slice(0, -1)]. *)
Fixpoint lastChar (s : string) : option ascii :=
  match s with
  | EmptyString => None
  | String c EmptyString => Some c
  | String _ s' => lastChar s'
  end.

(** [s.endsWith(c)] for a single code unit. *)
Definition endsWithChar (c : ascii) (s : string) : bool :=
  match lastChar s with
  | Some a => Ascii.eqb a c
  | None => false
  end.

Fixpoint dropLast (s : string) : string :=
  match s with
  | EmptyString => ""
  | String _ EmptyString => ""
  | String c s' => String c (dropLast s')
  end.

(** [s.slice(n)] *)
Fixpoint sliceFrom (n : nat) (s : string) : string :=
  match n, s with
  | O, _ => s
  | S n', String _ s' => sliceFrom n' s'
  | S _, EmptyString => ""
  end.

(** [s.includes(c)] for a single code unit. *)
Fixpoint includes (c : ascii) (s : string) : bool :=
  match s with
  | EmptyString => false
  | String a s' => Ascii.eqb a c || includes c s'
  end.

(** [[...s].every(p)] *)
Fixpoint forallChars (p : ascii -> bool) (s : string) : bool :=
  match s with
  | EmptyString => true
  | String c s' => p c && forallChars p s'
  end.

(** The number of occurrences of a code unit. *)
Fixpoint countChar (c : ascii) (s : string) : nat :=
  match s with
  | EmptyString => 0
  | String a s' => (if Ascii.eqb a c then 1 else 0) + countChar c s'
  end.

(** *** Numbers *)

Inductive number : Type :=
| NaN
| Num (z : Z).

(** Value of a digit in radix [r], if it is one. *)
Definition digitValue (r : Z) (c : ascii) : option Z :=
  let n := Z.of_nat (nat_of_ascii c) in
  let v :=
    (if (48 <=? n) && (n <=? 57) then Some (n - 48)
     else if (97 <=? n) && (n <=? 122) then Some (n - 87)
     else if (65 <=? n) && (n <=? 90) then Some (n - 55)
     else None)%Z in
  match v with
  | Some d => if (d <? r)%Z then Some d else None
  | None => None
  end.

(** The longest prefix of digits of [s], read in radix [r]; [acc] is the
    value read so far, [None] while no digit has been read. *)
Fixpoint readDigits (r : Z) (acc : option Z) (s : string) : option Z :=
  match s with
  | EmptyString => acc
  | String c s' =>
      match digitValue r c with
      | Some d =>
          readDigits r (Some (match acc with Some a => a * r + d | None => d end)%Z) s'
      | None => acc
      end
  end.

(** [parseInt(s)] with no radix argument: leading white space is skipped,
    a sign is read, a [0x]/[0X] prefix selects radix 16, then the longest
    prefix of digits is read; [NaN] when there is no digit.  The value is
    the exact integer: a caller that only compares it with integers below
    2^53 in magnitude gets the same answers as with the rounded double. *)
Definition parseInt (s : string) : number :=
  let s0 := trimStart s in
  let '(sign, s1) :=
    match s0 with
    | String a t =>
        if Ascii.eqb a "-" then ((-1)%Z, t)
        else if Ascii.eqb a "+" then (1%Z, t)
        else (1%Z, s0)
    | EmptyString => (1%Z, s0)
    end in
  let '(radix, s2) :=
    match s1 with
    | String a (String b t) =>
        if Ascii.eqb a "0" && (Ascii.eqb b "x" || Ascii.eqb b "X")
        then (16%Z, t)
        else (10%Z, s1)
    | _ => (10%Z, s1)
    end in
  match readDigits radix None s2 with
  | Some v => Num (sign * v)
  | None => NaN
  end.

(** [a - b > c] with [a] and [c] integers: false as soon as [b] is NaN. *)
Definition subGt (a : Z) (b : number) (c : Z) : bool :=
  match b with
  | NaN => false
  | Num t => (c <? a - t)%Z
  end.

End JS.

(* ================================================================= *)
(** ** Exceptions

    A call either returns a value or throws; an [async] function settles
    to one or the other. *)

Inductive error : Type :=
| DataError     (* Web Crypto: key material of length zero *)
| SyntaxError   (* RegExp: invalid pattern *)
| TypeError     (* Response.redirect: a URL that does not parse *)
| RangeError.   (* Response.redirect: a status that is not a redirect *)

Inductive outcome (A : Type) : Type :=
| Ok (a : A)
| Throw (e : error).

Arguments Ok {A} a.
Arguments Throw {A} e.

Definition bind {A B} (p : outcome A) (k : A -> outcome B) : outcome B :=
  match p with
  | Ok a => k a
  | Throw e => Throw e
  end.

Notation "'await' x <- p ; k" := (bind p (fun x => k))
  (at level 10, x name, p at level 100, k at level 200).

(* ================================================================= *)
(** ** UTF-8 ([TextEncoder], and the decoding of URL query strings) *)

Module Encoding.

Local Open Scope N_scope.

Definition byteOfN (n : N) : byte :=
  match Byte.of_N (n mod 256) with
  | Some b => b
  | None => x00
  end.

(** A code unit below 128 is one byte, a code unit in 128..255 two. *)
Definition utf8Unit (c : ascii) : list byte :=
  let n := N_of_ascii c in
  if n <? 128 then [byteOfN n]
  else [byteOfN (192 + n / 64); byteOfN (128 + n mod 64)].

(** [new TextEncoder().encode(s)] *)
Fixpoint encode (s : string) : list byte :=
  match s with
  | EmptyString => []
  | String c s' => utf8Unit c ++ encode s'
  end.

(** Decoding, for the byte sequences whose text is made of code units
    below 256; [None] for the others (code points from 256 on, and
    ill-formed input, which decodes to U+FFFD). *)
Fixpoint decode (bs : list byte) : option string :=
  match bs with
  | [] => Some EmptyString
  | b :: rest =>
      let n := Byte.to_N b in
      if n <? 128 then option_map (String (ascii_of_N n)) (decode rest)
      else if (n =? 194) || (n =? 195) then
        match rest with
        | b' :: rest' =>
            let m := Byte.to_N b' in
            if (128 <=? m) && (m <? 192)
            then option_map (String (ascii_of_N ((n - 192) * 64 + (m - 128)))) (decode rest')
            else None
        | [] => None
        end
      else None
  end.

End Encoding.

(* ================================================================= *)
(** ** Regular expressions

    [new RegExp(source)] and [regex.test(s)], for patterns with no flags.
    The pattern is parsed from its source text, code unit by code unit, and
    matched by trying every way to match, as the backtracking matcher of the
    language does; [test] only asks whether a match exists.

    The fragment that is modelled: pattern characters, [.], identity
    escapes of syntax characters, character classes of single code units
    (negated or not), groups, alternatives, the quantifiers [*], [+], [?]
    and their lazy forms, and the assertions [^] and [$].  A source outside
    of it is refused like an invalid one. *)

Module RegExp.

Local Open Scope string_scope.

Inductive charset : Type :=
| AnyChar                                  (* .     *)
| Lit (c : ascii)                          (* c, \c *)
| Class (negated : bool) (cs : list ascii). (* [..], [^..] *)

Inductive re : Type :=
| Eps
| Chr (cs : charset)
| Bol                   (* ^ *)
| Eol                   (* $ *)
| Seq (r1 r2 : re)
| Alt (r1 r2 : re)
| Star (r : re)
| Plus (r : re)
| Opt (r : re).

(** *** Parsing *)

(** What may follow the last term read. *)
Inductive follow : Type :=
| Quantifiable   (* an atom: a quantifier may follow *)
| Quantified     (* a quantified atom: [?] makes it lazy *)
| Closed.        (* nothing to repeat *)

(** An alternation being read: the alternatives that are complete, latest
    first, and the terms of the current one, latest first. *)
Record frame : Type := mkFrame
  { alts : list re; cur : list re; last : follow }.

Inductive mode : Type :=
| Normal
| Escape                                        (* after \   *)
| GroupOpen                                     (* after (   *)
| GroupQ                                        (* after (?  *)
| ClassOpen                                     (* after [   *)
| InClass (negated : bool) (cs : list ascii)    (* inside [..] *)
| ClassEscape (negated : bool) (cs : list ascii).

Record pstate : Type := mkP
  { stack : list frame; top : frame; pmode : mode }.

Definition seqOf (terms : list re) : re := fold_right Seq Eps terms.

Fixpoint altOf (rs : list re) : re :=
  match rs with
  | [] => Eps
  | [r] => r
  | r :: rs' => Alt r (altOf rs')
  end.

(** The disjunction a frame stands for. *)
Definition close (f : frame) : re :=
  altOf (rev (seqOf (rev (cur f)) :: alts f)).

Definition emptyFrame : frame := mkFrame [] [] Closed.

Definition pushTerm (t : re) (fl : follow) (st : pstate) : pstate :=
  mkP (stack st) (mkFrame (alts (top st)) (t :: cur (top st)) fl) Normal.

(** SyntaxCharacter, and [/]. *)
Definition isSyntaxChar (c : ascii) : bool :=
  JS.includes c "^$\.*+?()[]{}|/".

Definition quantify (q : ascii) (r : re) : re :=
  if Ascii.eqb q "*" then Star r
  else if Ascii.eqb q "+" then Plus r
  else Opt r.

Definition stepNormal (st : pstate) (c : ascii) : option pstate :=
  let f := top st in
  if Ascii.eqb c "\" then Some (mkP (stack st) f Escape)
  else if Ascii.eqb c "(" then Some (mkP (stack st) f GroupOpen)
  else if Ascii.eqb c "[" then Some (mkP (stack st) f ClassOpen)
  else if Ascii.eqb c ")" then
    match stack st with
    | [] => None
    | parent :: k =>
        Some (mkP k (mkFrame (alts parent) (close f :: cur parent) Quantifiable) Normal)
    end
  else if Ascii.eqb c "|" then
    Some (mkP (stack st) (mkFrame (seqOf (rev (cur f)) :: alts f) [] Closed) Normal)
  else if Ascii.eqb c "*" || Ascii.eqb c "+" || Ascii.eqb c "?" then
    match last f, cur f with
    | Quantifiable, t :: ts =>
        Some (mkP (stack st) (mkFrame (alts f) (quantify c t :: ts) Quantified) Normal)
    | Quantified, _ =>
        if Ascii.eqb c "?"
        then Some (mkP (stack st) (mkFrame (alts f) (cur f) Closed) Normal)
        else None
    | _, _ => None
    end
  else if Ascii.eqb c "." then Some (pushTerm (Chr AnyChar) Quantifiable st)
  else if Ascii.eqb c "^" then Some (pushTerm Bol Closed st)
  else if Ascii.eqb c "$" then Some (pushTerm Eol Closed st)
  else if Ascii.eqb c "{" then None
  else Some (pushTerm (Chr (Lit c)) Quantifiable st).

Definition step (st : pstate) (c : ascii) : option pstate :=
  match pmode st with
  | Normal => stepNormal st c
  | Escape =>
      if isSyntaxChar c then Some (pushTerm (Chr (Lit c)) Quantifiable st) else None
  | GroupOpen =>
      if Ascii.eqb c "?" then Some (mkP (stack st) (top st) GroupQ)
      else stepNormal (mkP (top st :: stack st) emptyFrame Normal) c
  | GroupQ =>
      if Ascii.eqb c ":" then Some (mkP (top st :: stack st) emptyFrame Normal)
      else None
  | ClassOpen =>
      if Ascii.eqb c "^" then Some (mkP (stack st) (top st) (InClass true []))
      else if Ascii.eqb c "]" then Some (pushTerm (Chr (Class false [])) Quantifiable st)
      else if Ascii.eqb c "\" then Some (mkP (stack st) (top st) (ClassEscape false []))
      else if Ascii.eqb c "-" then None
      else Some (mkP (stack st) (top st) (InClass false [c]))
  | InClass neg cs =>
      if Ascii.eqb c "]" then Some (pushTerm (Chr (Class neg (rev cs))) Quantifiable st)
      else if Ascii.eqb c "\" then Some (mkP (stack st) (top st) (ClassEscape neg cs))
      else if Ascii.eqb c "-" then None
      else Some (mkP (stack st) (top st) (InClass neg (c :: cs)))
  | ClassEscape neg cs =>
      if isSyntaxChar c || Ascii.eqb c "-"
      then Some (mkP (stack st) (top st) (InClass neg (c :: cs)))
      else None
  end.

Fixpoint run (st : pstate) (src : string) : option pstate :=
  match src with
  | EmptyString => Some st
  | String c src' =>
      match step st c with
      | Some st' => run st' src'
      | None => None
      end
  end.

Definition finish (st : pstate) : option re :=
  match pmode st, stack st with
  | Normal, [] => Some (close (top st))
  | _, _ => None
  end.

Definition initial : pstate := mkP [] emptyFrame Normal.

(** [new RegExp(source)]: the pattern, or [None] for a [SyntaxError]. *)
Definition compile (source : string) : option re :=
  match run initial source with
  | Some st => finish st
  | None => None
  end.

(** *** Matching *)

(** LineTerminator, in the Latin-1 range: LF and CR. *)
Definition isLineTerminator (c : ascii) : bool :=
  Ascii.eqb c "010" || Ascii.eqb c "013".

Definition inSet (cs : charset) (c : ascii) : bool :=
  match cs with
  | AnyChar => negb (isLineTerminator c)
  | Lit a => Ascii.eqb a c
  | Class neg l => xorb neg (existsb (Ascii.eqb c) l)
  end.

(** A position in the input: whether it is the start of the input, and the
    code units that remain. *)
Definition pos : Type := bool * string.

(** The positions reached by [n] or fewer further iterations of a body
    whose matches from a position are given by [body]; an iteration that
    consumes nothing is not taken. *)
Fixpoint starEnds (body : pos -> list pos) (n : nat) (i : pos) : list pos :=
  i ::
  match n with
  | O => []
  | S n' =>
      flat_map
        (fun j =>
           if (String.length (snd j) <? String.length (snd i))%nat
           then starEnds body n' j else [])
        (body i)
  end.

(** Every position at which a match of [r] that starts at [i] can end. *)
Fixpoint ends (r : re) (i : pos) : list pos :=
  match r with
  | Eps => [i]
  | Chr cs =>
      match snd i with
      | String c s' => if inSet cs c then [(false, s')] else []
      | EmptyString => []
      end
  | Bol => if fst i then [i] else []
  | Eol => match snd i with EmptyString => [i] | _ => [] end
  | Seq r1 r2 => flat_map (ends r2) (ends r1 i)
  | Alt r1 r2 => ends r1 i ++ ends r2 i
  | Star r1 => starEnds (ends r1) (String.length (snd i)) i
  | Plus r1 =>
      flat_map (fun j => starEnds (ends r1) (String.length (snd j)) j) (ends r1 i)
  | Opt r1 => ends r1 i ++ [i]
  end.

Definition matchesAt (r : re) (i : pos) : bool :=
  match ends r i with
  | [] => false
  | _ :: _ => true
  end.

(** A match is looked for from every index of the input, left to right. *)
Fixpoint searchFrom (r : re) (atStart : bool) (s : string) : bool :=
  matchesAt r (atStart, s) ||
  match s with
  | EmptyString => false
  | String _ s' => searchFrom r false s'
  end.

(** [regex.test(s)] *)
Definition test (r : re) (s : string) : bool := searchFrom r true s.

End RegExp.

(* ================================================================= *)
(** ** The glob matcher ([matchGlob] of [app.js]) *)

Module Glob.

Import JS.
Local Open Scope string_scope.

(** The code units of the class [[.+^${}()|[\]\\]] of [escapeRegex]. *)
Definition escapeSet : string := ".+^${}()|[]\".

(** [str.replace(/[.+^${}()|[\]\\]/g, '\\$&')]: every code unit of the
    class gets a backslash before it. *)
Fixpoint escapeRegex (str : string) : string :=
  match str with
  | EmptyString => ""
  | String c str' =>
      (if includes c escapeSet then String "\" (String c "") else String c "")
      ++ escapeRegex str'
  end.

(** The inner loop over [segment[j]], which builds [segmentPattern]. *)
Fixpoint segmentPattern (segment : string) : string :=
  match segment with
  | EmptyString => ""
  | String char rest =>
      (if Ascii.eqb char "*" then "[^/]*"           (* * matches anything except / *)
       else if Ascii.eqb char "?" then "[^/]"       (* ? matches single char except / *)
       else escapeRegex (String char ""))
      ++ segmentPattern rest
  end.

(** The outer loop over [segments[i]], which builds [regexPattern]; the
    segment is the last one, [i === segments.length - 1], when no segment
    follows it. *)
Fixpoint regexPattern (segments : list string) : string :=
  match segments with
  | [] => ""
  | segment :: rest =>
      let isLast := match rest with [] => true | _ :: _ => false end in
      (if String.eqb segment "**" then
         if isLast then ".*"             (* ** at the end matches everything *)
         else "(?:.*/)?"                 (* ** in the middle *)
       else
         segmentPattern segment ++ (if isLast then "" else "/"))
      ++ regexPattern rest
  end.

(** The source text given to [new RegExp]. *)
Definition regexSource (pattern : string) : string :=
  "^" ++ regexPattern (split "/" pattern) ++ "$".

Definition matchGlob (pattern path : string) : outcome bool :=
  match pattern with
  | EmptyString => Ok true
  | _ =>
      match RegExp.compile (regexSource pattern) with
      | None => Throw SyntaxError
      | Some regex => Ok (RegExp.test regex path)
      end
  end.

End Glob.

(* ================================================================= *)
(** ** The unified-diff assembler (the body of [loadDiff] in [app.js])

    [loadDiff] fetches the comparison of two refs, filters its files by the
    path filter, builds the unified diff and the statistics, and shows them.
    The embedding starts from the parsed response, [compareData.files], and
    from the trimmed value of the path-filter field, and gives what the
    page then shows. *)

Module Diff.

Import JS.
Local Open Scope string_scope.

(** An entry of [compareData.files].  A property that the response does not
    carry is [undefined]. *)
Record file : Type := mkFile
  { filename : string;
    previous_filename : option string;
    status : string;
    patch : option string;
    additions : option Z;
    deletions : option Z;
    mode : option string;
    previous_mode : option string }.

Definition nl : string := String "010" "".

(** [file.patch] as a condition: a non-empty string. *)
Definition truthy (v : option string) : bool := negb (falsy v).

(** [n || 0] *)
Definition orZero (n : option Z) : Z :=
  match n with
  | Some z => z
  | None => 0%Z
  end.

(** What one iteration of the loop over [files] appends to [unifiedDiff]. *)
Definition section (f : file) : string :=
  (* Skip binary files *)
  if strictEq (patch f) None
     && negb (String.eqb (status f) "removed")
     && negb (String.eqb (status f) "added")
  then ""
  else
    let oldFilename := orElse (previous_filename f) (filename f) in
    let newFilename := filename f in
    (if String.eqb (status f) "removed" then
       "diff --git a/" ++ oldFilename ++ " b/" ++ oldFilename ++ nl ++
       "deleted file mode " ++ orElse (previous_mode f) "100644" ++ nl ++
       "--- a/" ++ oldFilename ++ nl ++
       "+++ /dev/null" ++ nl
     else if String.eqb (status f) "added" then
       "diff --git a/" ++ newFilename ++ " b/" ++ newFilename ++ nl ++
       "new file mode " ++ orElse (mode f) "100644" ++ nl ++
       "--- /dev/null" ++ nl ++
       "+++ b/" ++ newFilename ++ nl
     else if String.eqb (status f) "renamed" then
       "diff --git a/" ++ oldFilename ++ " b/" ++ newFilename ++ nl ++
       "rename from " ++ oldFilename ++ nl ++
       "rename to " ++ newFilename ++ nl ++
       (if truthy (patch f) then
          (* File was renamed and modified *)
          "--- a/" ++ oldFilename ++ nl ++
          "+++ b/" ++ newFilename ++ nl
        else "")
     else
       (* Modified file *)
       "diff --git a/" ++ filename f ++ " b/" ++ filename f ++ nl ++
       "--- a/" ++ filename f ++ nl ++
       "+++ b/" ++ filename f ++ nl)
    ++
    (* Add patch content if available *)
    (if truthy (patch f) then orElse (patch f) "" ++ nl else "").

(** [unifiedDiff] after the loop. *)
Definition unifiedDiffOf (files : list file) : string :=
  fold_left (fun unifiedDiff f => unifiedDiff ++ section f) files "".

(** [files.filter((f) => matchGlob(pathFilter, f.filename))]; an exception
    of the callback ends the filtering. *)
Fixpoint filterFiles (pathFilter : string) (files : list file)
  : outcome (list file) :=
  match files with
  | [] => Ok []
  | f :: rest =>
      await keep <- Glob.matchGlob pathFilter (filename f);
      await kept <- filterFiles pathFilter rest;
      Ok (if keep then f :: kept else kept)
  end.

(** [compareData.files || []], narrowed when there is a path filter. *)
Definition filtered (files : option (list file)) (pathFilter : string)
  : outcome (list file) :=
  let files := match files with Some l => l | None => [] end in
  match pathFilter with
  | EmptyString => Ok files
  | _ => filterFiles pathFilter files
  end.

Definition sumOf (count : file -> option Z) (files : list file) : Z :=
  fold_left (fun sum f => (sum + orZero (count f))%Z) files 0%Z.

(** What is shown: the statistics line and the diff handed to the
    renderer. *)
Record shown : Type := mkShown
  { diffText : string;
    fileCount : nat;
    totalAdditions : Z;
    totalDeletions : Z;
    filteredBy : string }.

Inductive page : Type :=
| NoFilesMatch            (* "No files match the filter.", nothing rendered *)
| Stats (s : shown)       (* the statistics and, when not empty, the diff *)
| ErrorText (e : error).  (* [error.textContent], from the [catch] *)

Definition assemble (files : option (list file)) (pathFilter : string)
  : outcome page :=
  await files <- filtered files pathFilter;
  match files with
  | [] => Ok NoFilesMatch
  | _ :: _ =>
      let unifiedDiff := unifiedDiffOf files in
      let additions := sumOf additions files in
      let deletions := sumOf deletions files in
      Ok (Stats (mkShown unifiedDiff (List.length files) additions deletions pathFilter))
  end.

(** The [try] ... [catch] around the assembly. *)
Definition loadDiff (files : option (list file)) (pathFilter : string) : page :=
  match assemble files pathFilter with
  | Ok p => p
  | Throw e => ErrorText e
  end.

End Diff.

(* ================================================================= *)
(** ** Shareable URLs ([updateURL] and [loadFromURL] of [app.js]) *)

Module Url.

Import JS.
Local Open Scope string_scope.

(** The values of the inputs [#repo], [#base], [#head], [#path-filter]. *)
Record form : Type := mkForm
  { repo : string; base : string; head : string; pathFilter : string }.

(** [window.location], as far as it is read. *)
Record location : Type := mkLocation
  { pathname : string; search : string }.

(** *** Percent encoding *)

Definition isAlnum (c : ascii) : bool :=
  let n := nat_of_ascii c in
  ((48 <=? n) && (n <=? 57) || (65 <=? n) && (n <=? 90)
   || (97 <=? n) && (n <=? 122))%nat.

(** The code units that [encodeURIComponent] leaves as they are. *)
Definition isUnreserved (c : ascii) : bool :=
  isAlnum c || includes c "-_.!~*'()".

Definition upperHexDigit (n : N) : ascii :=
  ascii_of_N (if (n <? 10)%N then 48 + n else 55 + n).

Definition percentByte (b : byte) : string :=
  let n := Byte.to_N b in
  String "%" (String (upperHexDigit (n / 16)) (String (upperHexDigit (n mod 16)) "")).

Fixpoint percentBytes (bs : list byte) : string :=
  match bs with
  | [] => ""
  | b :: bs' => percentByte b ++ percentBytes bs'
  end.

Fixpoint encodeURIComponent (s : string) : string :=
  match s with
  | EmptyString => ""
  | String c s' =>
      (if isUnreserved c then String c "" else percentBytes (Encoding.utf8Unit c))
      ++ encodeURIComponent s'
  end.

Definition hexValue (b : byte) : option N :=
  let n := Byte.to_N b in
  (if (48 <=? n) && (n <=? 57) then Some (n - 48)
   else if (65 <=? n) && (n <=? 70) then Some (n - 55)
   else if (97 <=? n) && (n <=? 102) then Some (n - 87)
   else None)%N.

(** Percent-decoding of a byte sequence: [%] followed by two hexadecimal
    digits is the byte they denote, any other byte is itself. *)
Fixpoint percentDecode (bs : list byte) : list byte :=
  match bs with
  | [] => []
  | b :: rest =>
      match b, rest with
      | x25, h :: l :: rest' =>
          match hexValue h, hexValue l with
          | Some hv, Some lv => Encoding.byteOfN (hv * 16 + lv) :: percentDecode rest'
          | _, _ => b :: percentDecode rest
          end
      | _, _ => b :: percentDecode rest
      end
  end.

(** *** The URL parser, on the URLs that it leaves as they are

    [history.replaceState(null, "", url)] parses [url] against the address
    of the page.  The model covers a [url] that is a path starting with one
    [/], made of code units the parser does not rewrite and without [.] or
    [..] segments, then possibly a query and a fragment.  In the query
    only the apostrophe is rewritten.  [None] is a [url] outside of that. *)

Definition isPrintable (c : ascii) : bool :=
  let n := nat_of_ascii c in ((33 <=? n) && (n <=? 126))%nat.

Definition isPathChar (c : ascii) : bool :=
  isPrintable c && negb (Ascii.eqb c "034" || includes c "#<>?^`{}\").

Definition isQueryChar (c : ascii) : bool :=
  isPrintable c && negb (Ascii.eqb c "034" || includes c "#<>").

Definition lower (c : ascii) : ascii :=
  let n := nat_of_ascii c in
  if ((65 <=? n) && (n <=? 90))%nat then ascii_of_nat (n + 32) else c.

Fixpoint lowerCase (s : string) : string :=
  match s with
  | EmptyString => ""
  | String c s' => String (lower c) (lowerCase s')
  end.

Definition isDotSegment (seg : string) : bool :=
  let s := lowerCase seg in
  String.eqb s "." || String.eqb s "%2e" || String.eqb s ".."
  || String.eqb s ".%2e" || String.eqb s "%2e." || String.eqb s "%2e%2e".

(** The part before the first [c], and the part after it when there is
    one. *)
Fixpoint cutAt (c : ascii) (s : string) : string * option string :=
  match s with
  | EmptyString => ("", None)
  | String a s' =>
      if Ascii.eqb a c then ("", Some s')
      else let '(x, y) := cutAt c s' in (String a x, y)
  end.

Fixpoint encodeQuery (q : string) : string :=
  match q with
  | EmptyString => ""
  | String c q' => (if Ascii.eqb c "'" then "%27" else String c "") ++ encodeQuery q'
  end.

Definition parseURL (url : string) : option location :=
  let '(beforeHash, _) := cutAt "#" url in
  let '(path, query) := cutAt "?" beforeHash in
  if startsWith "/" path
     && negb (startsWith "//" path) && negb (startsWith "/\" path)
     && forallChars isPathChar path
     && negb (existsb isDotSegment (split "/" path))
  then
    match query with
    | None => Some (mkLocation path "")
    | Some EmptyString => Some (mkLocation path "")
    | Some q =>
        if forallChars isQueryChar q
        then Some (mkLocation path ("?" ++ encodeQuery q))
        else None
    end
  else None.

(** *** [URLSearchParams] *)

Definition plusToSpace (c : ascii) : ascii :=
  if Ascii.eqb c "+" then " "%char else c.

Fixpoint mapChars (f : ascii -> ascii) (s : string) : string :=
  match s with
  | EmptyString => ""
  | String c s' => String (f c) (mapChars f s')
  end.

(** A name or a value: [+] is a space, then percent-decoding of the UTF-8
    bytes, then UTF-8 decoding. *)
Definition decodeComponent (s : string) : option string :=
  Encoding.decode (percentDecode (Encoding.encode (mapChars plusToSpace s))).

Fixpoint decodePairs (pieces : list string) : option (list (string * string)) :=
  match pieces with
  | [] => Some []
  | EmptyString :: rest => decodePairs rest
  | piece :: rest =>
      let '(name, value) := cutAt "=" piece in
      match decodeComponent name,
            decodeComponent (match value with Some v => v | None => "" end),
            decodePairs rest with
      | Some n, Some v, Some l => Some ((n, v) :: l)
      | _, _, _ => None
      end
  end.

(** [new URLSearchParams(search)]; [None] when a name or a value is outside
    of what [Encoding.decode] covers. *)
Definition searchParams (search : string) : option (list (string * string)) :=
  let s := match search with String "?" s' => s' | _ => search end in
  decodePairs (split "&" s).

(** [params.get(name)] *)
Fixpoint get (params : list (string * string)) (name : string) : option string :=
  match params with
  | [] => None
  | (n, v) :: rest => if String.eqb n name then Some v else get rest name
  end.

(** *** [updateURL] *)

Definition truthy (s : string) : bool :=
  match s with EmptyString => false | _ => true end.

Definition urlPrefix : string := "/gh-dir-diff/".

(** The URL that [updateURL] builds from the trimmed values of the form,
    when it builds one. *)
Definition shareURL (f : form) : option string :=
  let repo := trim (repo f) in
  let base := trim (base f) in
  let head := trim (head f) in
  let filter := trim (pathFilter f) in
  if truthy repo && truthy base && truthy head then
    let url := urlPrefix ++ repo ++ "/" ++ base ++ ".." ++ head in
    Some (if truthy filter then url ++ "?filter=" ++ encodeURIComponent filter else url)
  else None.

(** The location after [updateURL]. *)
Definition updateURL (f : form) (loc : location) : option location :=
  match shareURL f with
  | Some url => parseURL url
  | None => Some loc
  end.

(** *** [loadFromURL] *)

(** The form when the location is a path-based URL. *)
Definition fromPath (pathname : string) (params : list (string * string))
  : option form :=
  if startsWith urlPrefix pathname
     && (String.length urlPrefix <? String.length pathname)%nat then
    (* Remove /gh-dir-diff/ prefix *)
    let path := sliceFrom (String.length urlPrefix) pathname in
    (* Remove trailing slash if present *)
    let path := if endsWithChar "/" path then dropLast path else path in
    (* Split by .. to separate base and head *)
    let parts := split ".." path in
    match parts with
    | [part0; part1] =>
        let segments := split "/" part0 in
        match segments with
        | segment0 :: segment1 :: after =>
            (* First two segments are always owner/repo *)
            let repo := segment0 ++ "/" ++ segment1 in
            (* Everything after is the base ref *)
            let base := join "/" after in
            let head := part1 in
            Some (mkForm repo base head (orElse (get params "filter") ""))
        | _ => None
        end
    | _ => None
    end
  else None.

(** The form after [loadFromURL]; [None] when the query string is outside
    of what [searchParams] covers. *)
Definition loadFromURL (loc : location) (f : form) : option form :=
  match searchParams (search loc) with
  | None => None
  | Some params =>
      match fromPath (pathname loc) params with
      | Some f' => Some f'
      | None =>
          (* Fallback to query params for backwards compatibility *)
          if negb (falsy (get params "repo")) then
            Some (mkForm (orElse (get params "repo") "")
                         (orElse (get params "base") "")
                         (orElse (get params "head") "")
                         (orElse (get params "filter") ""))
          else Some f
      end
  end.

End Url.

(* ================================================================= *)
(** ** The platform's cryptography: SHA-256 and HMAC

    [crypto.subtle] is provided by the runtime.  It is modelled by the
    algorithms it standardises: SHA-256 of FIPS 180-4 and HMAC of
    RFC 2104, on byte strings. *)

Module Crypto.

Local Open Scope N_scope.

Import Encoding.

(** *** SHA-256 *)

Definition add32 (x y : N) : N := (x + y) mod 2 ^ 32.
Definition rotr (n x : N) : N :=
  N.lor (N.shiftr x n) (N.shiftl x (32 - n) mod 2 ^ 32).
Definition not32 (x : N) : N := N.lxor x (2 ^ 32 - 1).

Definition Ch (x y z : N) : N := N.lxor (N.land x y) (N.land (not32 x) z).
Definition Maj (x y z : N) : N :=
  N.lxor (N.lxor (N.land x y) (N.land x z)) (N.land y z).
Definition bigSigma0 (x : N) : N := N.lxor (N.lxor (rotr 2 x) (rotr 13 x)) (rotr 22 x).
Definition bigSigma1 (x : N) : N := N.lxor (N.lxor (rotr 6 x) (rotr 11 x)) (rotr 25 x).
Definition smallSigma0 (x : N) : N := N.lxor (N.lxor (rotr 7 x) (rotr 18 x)) (N.shiftr x 3).
Definition smallSigma1 (x : N) : N := N.lxor (N.lxor (rotr 17 x) (rotr 19 x)) (N.shiftr x 10).

(** The first [n] primes from [k] on, by trial division; [fuel] bounds the
    candidates tried. *)
Definition isPrime (k : nat) : bool :=
  forallb (fun d => negb (Nat.eqb (Nat.modulo k d) 0)) (seq 2 (k - 2)).

Fixpoint primesFrom (fuel k n : nat) : list N :=
  match fuel, n with
  | S fuel', S n' =>
      if isPrime k then N.of_nat k :: primesFrom fuel' (S k) n'
      else primesFrom fuel' (S k) n
  | _, _ => []
  end.

Definition primes (n : nat) : list N := primesFrom 400 2 n.

(** The integer cube root, bit by bit from bit 40 down. *)
Definition cubeRoot (v : N) : N :=
  fold_left
    (fun r b => let r' := r + 2 ^ N.of_nat b in
                if r' * r' * r' <=? v then r' else r)
    (rev (seq 0 41)) 0.

(** The round constants: the first 32 bits of the fractional parts of the
    cube roots of the first 64 primes. *)
Definition K256 : list N :=
  Eval vm_compute in map (fun p => cubeRoot (p * 2 ^ 96) mod 2 ^ 32) (primes 64).

(** The eight working variables, and the hash value between blocks. *)
Record state : Type := mkState
  { ha : N; hb : N; hc : N; hd : N; he : N; hf : N; hg : N; hh : N }.

(** The initial hash value: the first 32 bits of the fractional parts of
    the square roots of the first 8 primes. *)
Definition initialWords : list N :=
  Eval vm_compute in map (fun p => N.sqrt (p * 2 ^ 64) mod 2 ^ 32) (primes 8).

Definition H0 : state :=
  let w i := nth i initialWords 0 in
  mkState (w 0%nat) (w 1%nat) (w 2%nat) (w 3%nat)
          (w 4%nat) (w 5%nat) (w 6%nat) (w 7%nat).

(** Padding: a 1 bit, zeros up to 56 mod 64 bytes, the bit length on 64
    bits, big endian. *)
Definition bigEndian (nbytes : nat) (v : N) : list byte :=
  map (fun i => byteOfN (N.shiftr v (8 * N.of_nat i))) (rev (seq 0 nbytes)).

Definition pad (msg : list byte) : list byte :=
  let l := List.length msg in
  let zeros := Nat.modulo (64 + 55 - Nat.modulo l 64) 64 in
  msg ++ [x80] ++ repeat x00 zeros ++ bigEndian 8 (8 * N.of_nat l).

Definition wordOfBytes (b0 b1 b2 b3 : byte) : N :=
  ((Byte.to_N b0 * 256 + Byte.to_N b1) * 256 + Byte.to_N b2) * 256 + Byte.to_N b3.

Fixpoint wordsOfBytes (bs : list byte) : list N :=
  match bs with
  | b0 :: b1 :: b2 :: b3 :: rest => wordOfBytes b0 b1 b2 b3 :: wordsOfBytes rest
  | _ => []
  end.

(** The message schedule: [n] more words after the ones in [ws]. *)
Fixpoint schedule (n : nat) (ws : list N) : list N :=
  match n with
  | O => ws
  | S n' =>
      let t := List.length ws in
      let w i := nth (t - i) ws 0 in
      schedule n'
        (ws ++ [add32 (add32 (smallSigma1 (w 2%nat)) (w 7%nat))
                      (add32 (smallSigma0 (w 15%nat)) (w 16%nat))])
  end.

Definition round (s : state) (kw : N * N) : state :=
  let '(k, w) := kw in
  let t1 := add32 (add32 (add32 (add32 (hh s) (bigSigma1 (he s)))
                                (Ch (he s) (hf s) (hg s))) k) w in
  let t2 := add32 (bigSigma0 (ha s)) (Maj (ha s) (hb s) (hc s)) in
  mkState (add32 t1 t2) (ha s) (hb s) (hc s) (add32 (hd s) t1) (he s) (hf s) (hg s).

Definition compress (h : state) (block : list N) : state :=
  let s := fold_left round (combine K256 (schedule 48 block)) h in
  mkState (add32 (ha h) (ha s)) (add32 (hb h) (hb s))
          (add32 (hc h) (hc s)) (add32 (hd h) (hd s))
          (add32 (he h) (he s)) (add32 (hf h) (hf s))
          (add32 (hg h) (hg s)) (add32 (hh h) (hh s)).

(** Process a padded message block by block; [n] bounds the block count. *)
Fixpoint blocks (n : nat) (h : state) (ws : list N) : state :=
  match n, ws with
  | S n', _ :: _ => blocks n' (compress h (firstn 16 ws)) (skipn 16 ws)
  | _, _ => h
  end.

Definition digest (h : state) : list byte :=
  flat_map (bigEndian 4) [ha h; hb h; hc h; hd h; he h; hf h; hg h; hh h].

Definition sha256 (msg : list byte) : list byte :=
  let ws := wordsOfBytes (pad msg) in
  digest (blocks (List.length ws) H0 ws).

(** *** HMAC-SHA-256 *)

Definition blockSize : nat := 64.

Definition xorByte (p : N) (b : byte) : byte := byteOfN (N.lxor (Byte.to_N b) p).

(** The key of one block: hashed when longer than a block, then filled
    with zero bytes. *)
Definition blockKey (key : list byte) : list byte :=
  let k := if Nat.ltb blockSize (List.length key) then sha256 key else key in
  k ++ repeat x00 (blockSize - List.length k).

Definition hmac (key msg : list byte) : list byte :=
  let k := blockKey key in
  sha256 (map (xorByte 0x5c) k ++ sha256 (map (xorByte 0x36) k ++ msg)).

(** *** Hexadecimal *)

Definition hexDigit (n : N) : ascii :=
  ascii_of_N (if n <? 10 then 48 + n else 87 + n).

(** [b.toString(16).padStart(2, "0")] *)
Definition hexByte (b : byte) : string :=
  let n := Byte.to_N b in
  String (hexDigit (n / 16)) (String (hexDigit (n mod 16)) "").

(** [bytes.map(hexByte).join("")] *)
Fixpoint hex (bs : list byte) : string :=
  match bs with
  | [] => ""
  | b :: bs' => (hexByte b ++ hex bs')%string
  end.

End Crypto.

(* ================================================================= *)
(** ** The signed state token ([gh-dir-diff-oauth/src/index.ts]) *)

Module OAuth.

Import JS.
Local Open Scope string_scope.

(** [crypto.subtle.importKey("raw", bytes, {name: "HMAC", hash: "SHA-256"},
    false, ["sign"])]: key material of length zero is refused. *)
Definition importKey (raw : list byte) : outcome (list byte) :=
  match raw with
  | [] => Throw DataError
  | _ => Ok raw
  end.

(** [crypto.subtle.sign("HMAC", key, data)] *)
Definition sign (key data : list byte) : outcome (list byte) :=
  Ok (Crypto.hmac key data).

Definition signState (state secret : string) : outcome string :=
  await key <- importKey (Encoding.encode secret);
  await signature <- sign key (Encoding.encode state);
  let sigHex := Crypto.hex signature in
  Ok (state ++ "." ++ sigHex).

(** [10 * 60 * 1000] *)
Definition expiry : Z := 10 * 60 * 1000.

(** [now] is the reading of [Date.now()]. *)
Definition verifyState (signedState secret : string) (now : Z)
  : outcome (option string) :=
  let parts := split "." signedState in
  let state := at_ parts 0 in
  let signature := at_ parts 1 in
  if falsy state || falsy signature then Ok None else
  let state := orElse state "" in
  await expectedSigned <- signState state secret;
  let expectedSig := at_ (split "." expectedSigned) 1 in
  (* Constant-time comparison *)
  if negb (strictEq signature expectedSig) then Ok None else
  (* Check expiration (state format: timestamp-uuid) *)
  let timestamp := parseInt (orElse (at_ (split "-" state) 0) "") in
  if subGt now timestamp expiry then Ok None else
  Ok (Some state).

End OAuth.

(* ================================================================= *)
(** ** The worker's request handler ([fetch] of
       [gh-dir-diff-oauth/src/index.ts])

    The embedding starts from the parsed request: its method, the
    [pathname], [origin] and [searchParams] of its URL, and its [Cookie]
    header.  The clock, the UUID generator, the token endpoint of GitHub
    and the URL parser behind [Response.redirect] are given to the
    handler. *)

Module Worker.

Import JS OAuth.
Local Open Scope string_scope.

(** *** Numbers in template literals *)

Definition digitChar (d : Z) : ascii := ascii_of_N (Z.to_N (48 + d)).

(** The decimal digits of [n], most significant first, before [acc];
    [fuel] bounds their number. *)
Fixpoint digitsFrom (fuel : nat) (n : Z) (acc : string) : string :=
  match fuel with
  | O => acc
  | S fuel' =>
      let acc' := String (digitChar (n mod 10)) acc in
      if (n <? 10)%Z then acc' else digitsFrom fuel' (n / 10) acc'
  end.

(** [`${n}`] for an integer [n] below 10^21 in magnitude. *)
Definition numberToString (n : Z) : string :=
  if (n <? 0)%Z
  then String "-" (digitsFrom (S (Z.to_nat (Z.log2 (- n)))) (- n) "")
  else digitsFrom (S (Z.to_nat (Z.log2 n))) n "".

(** *** [URLSearchParams], written out *)

(** The bytes that the form encoding leaves as they are. *)
Definition isFormSafe (c : ascii) : bool :=
  Url.isAlnum c || includes c "*-._".

Definition formByte (b : byte) : string :=
  let c := ascii_of_byte b in
  if Ascii.eqb c " " then "+"
  else if isFormSafe c then String c ""
  else Url.percentByte b.

Fixpoint formBytes (bs : list byte) : string :=
  match bs with
  | [] => ""
  | b :: bs' => formByte b ++ formBytes bs'
  end.

Definition formEncode (s : string) : string := formBytes (Encoding.encode s).

(** [params.toString()] *)
Fixpoint formSerialize (params : list (string * string)) : string :=
  match params with
  | [] => ""
  | [(n, v)] => formEncode n ++ "=" ++ formEncode v
  | (n, v) :: rest => formEncode n ++ "=" ++ formEncode v ++ "&" ++ formSerialize rest
  end.

(** *** The handler *)

Record env : Type := mkEnv
  { GITHUB_CLIENT_ID : string;
    GITHUB_CLIENT_SECRET : string;
    FRONTEND_URL : string;
    CSRF_SECRET : string }.

Record request : Type := mkRequest
  { method : string;
    pathname : string;                       (* url.pathname *)
    origin : string;                         (* url.origin *)
    searchParams : list (string * string);   (* url.searchParams *)
    cookieHeader : option string }.          (* request.headers.get("Cookie") *)

(** A response: [new Response(body, init)] with the status and headers of
    [init], or the response that [Response.redirect(url, status)] makes,
    with the [url] it was called with, its status and its headers. *)
Inductive response : Type :=
| Plain (body : option string) (status : Z) (headers : list (string * string))
| Redirect (url : string) (status : Z) (headers : list (string * string)).

(** The JSON body of the token endpoint's answer. *)
Record tokenData : Type := mkTokenData
  { access_token : option string;
    error : option string;
    error_description : option string }.

(** The body of the request to the token endpoint. *)
Record tokenRequest : Type := mkTokenRequest
  { client_id : string; client_secret : string; code : string }.

(** What the worker is given besides the request: [Date.now()],
    [crypto.randomUUID()], the token endpoint with the parsing of its
    answer, and the URL parser of the platform, which gives the
    serialisation of the URL it reads, or fails. *)
Record world : Type := mkWorld
  { now : Z;
    randomUUID : string;
    fetchToken : tokenRequest -> outcome tokenData;
    urlParser : string -> option string }.

(** [Response.redirect(url, status)].  The URL is parsed, and a failure is
    a [TypeError]; a status that is not a redirect status is a
    [RangeError]; the response has the status and one header, [Location],
    with the serialisation of the URL.  The function takes these two
    arguments: a third one, [init], is not looked at. *)
Definition redirect (w : world) (url : string) (status : Z)
                    (init : list (string * string)) : outcome response :=
  match urlParser w url with
  | None => Throw TypeError
  | Some parsedURL =>
      if existsb (Z.eqb status) [301; 302; 303; 307; 308]%Z
      then Ok (Redirect url status [("Location", parsedURL)])
      else Throw RangeError
  end.

(** [a || b] on values that are strings or [undefined]. *)
Definition orValue (a b : option string) : option string :=
  if falsy a then b else a.

(** A string or [undefined] in a template literal. *)
Definition templateText (v : option string) : string :=
  match v with
  | Some s => s
  | None => "undefined"
  end.

(** [const [key, ...v] = c.trim().split("="); return [key, v.join("=")]] *)
Definition cookieEntry (c : string) : string * string :=
  match split "=" (trim c) with
  | key :: v => (key, join "=" v)
  | [] => ("", "")
  end.

(** [Object.fromEntries(cookieHeader.split(";").map(...))], as the entries
    in the order they are set. *)
Definition parseCookies (cookieHeader : string) : list (string * string) :=
  map cookieEntry (split ";" cookieHeader).

(** [object[key]] for an object built by [Object.fromEntries]: the value of
    the last entry with that key. *)
Definition property (entries : list (string * string)) (key : string)
  : option string :=
  fold_left (fun found e => if String.eqb (fst e) key then Some (snd e) else found)
            entries None.

Definition authorizeURL (e : env) (req : request) (state : string) : string :=
  "https://github.com/login/oauth/authorize" ++ "?" ++
  formSerialize [ ("client_id", GITHUB_CLIENT_ID e);
                  ("redirect_uri", origin req ++ "/callback");
                  ("scope", "repo");
                  ("state", state) ].

Definition login (req : request) (e : env) (w : world) : outcome response :=
  (* Create state with timestamp for expiry *)
  let state := numberToString (now w) ++ "-" ++ randomUUID w in
  await signedState <- signState state (CSRF_SECRET e);
  (* Set state in secure, httpOnly cookie *)
  redirect w (authorizeURL e req state) 302
    [("Set-Cookie",
      "oauth_state=" ++ signedState
      ++ "; HttpOnly; Secure; SameSite=None; Max-Age=600; Path=/")].

Definition callback (req : request) (e : env) (w : world) : outcome response :=
  let code := Url.get (searchParams req) "code" in
  let state := Url.get (searchParams req) "state" in
  if falsy code || falsy state
  then Ok (Plain (Some "Missing code or state parameter") 400 [])
  else
    (* Verify CSRF token from cookie *)
    let cookieHeader := orElse (cookieHeader req) "" in
    let cookies := parseCookies cookieHeader in
    let signedState := property cookies "oauth_state" in
    if falsy signedState
    then Ok (Plain (Some "Missing state cookie") 400 [])
    else
      await validState <- verifyState (orElse signedState "") (CSRF_SECRET e) (now w);
      if falsy validState || negb (strictEq validState state)
      then Ok (Plain (Some "Invalid or expired state") 400 [])
      else
        await tokenData <-
          fetchToken w (mkTokenRequest (GITHUB_CLIENT_ID e) (GITHUB_CLIENT_SECRET e)
                                       (orElse code ""));
        if negb (falsy (error tokenData)) || falsy (access_token tokenData)
        then
          Ok (Plain
                (Some ("OAuth error: "
                       ++ templateText (orValue (error_description tokenData)
                                                (error tokenData))))
                400 [])
        else
          (* Clear the state cookie and redirect to frontend with token in
             URL fragment *)
          redirect w
            (FRONTEND_URL e ++ "/#access_token="
             ++ orElse (access_token tokenData) "")
            302
            [("Set-Cookie",
              "oauth_state=; HttpOnly; Secure; SameSite=None; Max-Age=0; Path=/")].

Definition fetch (req : request) (e : env) (w : world) : outcome response :=
  (* CORS preflight *)
  if String.eqb (method req) "OPTIONS" then
    Ok (Plain None 200
          [("Access-Control-Allow-Origin", FRONTEND_URL e);
           ("Access-Control-Allow-Methods", "GET")])
  else if String.eqb (pathname req) "/login" then login req e w
  else if String.eqb (pathname req) "/callback" then callback req e w
  (* Health check / info endpoint *)
  else if String.eqb (pathname req) "/" then
    Ok (Plain (Some "Diff Viewer OAuth Worker. Use /login to authenticate.") 200
          [("Content-Type", "text/plain")])
  else Ok (Plain (Some "Not found") 404 []).

End Worker.

(* ================================================================= *)
(** ** Terms in which the properties are stated *)

(** The signed state token. *)
Module TokenTerms.

Import JS OAuth.
Local Open Scope string_scope.

(** The signature that [signState] appends to [state]. *)
Definition tag (secret state : string) : list byte :=
  Crypto.hmac (Encoding.encode secret) (Encoding.encode state).

Definition sigHex (secret state : string) : string :=
  Crypto.hex (tag secret state).

(** [verify(sign(state, secretA), secretB, now)] *)
Definition signThenVerify (state secretA secretB : string) (now : Z)
  : outcome (option string) :=
  await signedState <- signState state secretA;
  verifyState signedState secretB now.

(** The leading segment of a state, which holds its timestamp. *)
Definition timestampOf (state : string) : number :=
  parseInt (orElse (at_ (split "-" state) 0) "").

(** The byte a pair of hexadecimal digits stands for. *)
Definition unhexDigit (c : ascii) : N :=
  let n := N_of_ascii c in if (n <? 58)%N then (n - 48)%N else (n - 87)%N.

Definition unhexByte (s : string) : byte :=
  match s with
  | String x (String y _) => Encoding.byteOfN (unhexDigit x * 16 + unhexDigit y)
  | _ => x00
  end.

(** Every list of [n] elements of [alphabet]. *)
Fixpoint words {A : Type} (alphabet : list A) (n : nat) : list (list A) :=
  match n with
  | O => [[]]
  | S n' => flat_map (fun a => map (cons a) (words alphabet n')) alphabet
  end.

(** The 256 bytes. *)
Definition allBytes : list byte :=
  map (fun n => Encoding.byteOfN (N.of_nat n)) (seq 0 256).

(** Seventeen letters, and the secrets of 64 of them: each is an HMAC key
    of exactly one block, used as it is. *)
Definition keyLetters : list ascii := list_ascii_of_string "abcdefghijklmnopq".

Definition letterByte (c : ascii) : byte := Encoding.byteOfN (N_of_ascii c).

End TokenTerms.

(** The glob matcher and its regular expression. *)
Module GlobTerms.

Import JS RegExp Glob.
Local Open Scope string_scope.

(** The terms that the source text written by [matchGlob] stands for, given
    directly: one matcher per code unit of a segment, one per [**]
    segment, and the separators. *)

Definition notSlash : charset := Class true ["/"%char].

Definition charTerm (c : ascii) : re :=
  if Ascii.eqb c "*" then Star (Chr notSlash)
  else if Ascii.eqb c "?" then Chr notSlash
  else Chr (Lit c).

Fixpoint segmentTerms (segment : string) : list re :=
  match segment with
  | EmptyString => []
  | String c rest => charTerm c :: segmentTerms rest
  end.

Definition anySuffix : re := Star (Chr AnyChar).

Definition anySegments : re :=
  Opt (Seq (Star (Chr AnyChar)) (Seq (Chr (Lit "/")) Eps)).

Fixpoint globTerms (segments : list string) : list re :=
  match segments with
  | [] => []
  | segment :: rest =>
      let isLast := match rest with [] => true | _ :: _ => false end in
      ((if String.eqb segment "**" then
          [if isLast then anySuffix else anySegments]
        else
          segmentTerms segment ++ (if isLast then [] else [Chr (Lit "/")]))
       ++ globTerms rest)%list
  end.

Definition globRegex (pattern : string) : re :=
  seqOf (Bol :: globTerms (split "/" pattern) ++ [Eol])%list.

(** [st'] is [st] after reading the terms [ts] into its current
    alternative. *)
Definition extends (st : pstate) (ts : list re) (st' : pstate) : Prop :=
  pmode st' = Normal
  /\ stack st' = stack st
  /\ alts (top st') = alts (top st)
  /\ cur (top st') = (rev ts ++ cur (top st))%list.

(** The source text [src] reads as the terms [ts], wherever it occurs. *)
Definition reads (src : string) (ts : list re) : Prop :=
  forall st, pmode st = Normal ->
             exists st', run st src = Some st' /\ extends st ts st'.

(** [j] is a position where a match of [r] from [i] ends. *)
Definition reach (r : re) (i j : pos) : Prop := In j (ends r i).

Definition plainSegment (segment : string) : Prop :=
  String.eqb segment "**" = false.

Definition noLineTerminator (s : string) : bool :=
  forallChars (fun c => negb (isLineTerminator c)) s.

Fixpoint anchorFree (r : re) : bool :=
  match r with
  | Bol | Eol => false
  | Eps | Chr _ => true
  | Seq a b | Alt a b => anchorFree a && anchorFree b
  | Star a | Plus a | Opt a => anchorFree a
  end.

Definition extensible (body : pos -> list pos) (y : string) : Prop :=
  forall b s b' s' b2,
    In (b', s') (body (b, s)) -> exists b2', In (b2', s' ++ y) (body (b2, s ++ y)).

(** The terms of segments that are followed by another segment. *)
Fixpoint leadingTerms (segments : list string) : list re :=
  match segments with
  | [] => []
  | segment :: rest =>
      ((if String.eqb segment "**" then [anySegments]
        else segmentTerms segment ++ [Chr (Lit "/")])
       ++ leadingTerms rest)%list
  end.

(** Zero or more whole segments, each with its separator, and without a
    line terminator. *)
Definition wholeSegments (mid : string) : Prop :=
  mid = "" \/ exists w, mid = w ++ "/" /\ noLineTerminator w = true.

Definition lineFeed : string := String "010" "".

End GlobTerms.

(** The unified-diff assembler. *)
Module DiffTerms.

Import JS Glob Diff GlobTerms.
Local Open Scope string_scope.

(** Whether a file passes the path filter. *)
Definition passes (pathFilter : string) (f : file) : bool :=
  match pathFilter with
  | EmptyString => true
  | _ => RegExp.test (globRegex pathFilter) (filename f)
  end.

Definition total (count : file -> option Z) (files : list file) : Z :=
  fold_right (fun f sum => (orZero (count f) + sum)%Z) 0%Z files.

(** Replacing the patches of the files, whatever the replacement. *)
Definition setPatch (g : file -> option string) (f : file) : file :=
  mkFile (filename f) (previous_filename f) (status f) (g f)
         (additions f) (deletions f) (mode f) (previous_mode f).

(** The header of a section. *)
Definition renameHeader (oldFilename newFilename : string) : string :=
  "diff --git a/" ++ oldFilename ++ " b/" ++ newFilename ++ nl ++
  "rename from " ++ oldFilename ++ nl ++
  "rename to " ++ newFilename ++ nl.

Definition fromTo (oldFilename newFilename : string) : string :=
  "--- a/" ++ oldFilename ++ nl ++ "+++ b/" ++ newFilename ++ nl.

(** Additions 3, 0, 5 and deletions 1, 2, 0: totals 8 and 3, also when
    the last two files carry no patch and are skipped. *)
Definition threeFiles : list file :=
  [ mkFile "a.go" None "modified" (Some "@@ -1 +1,3 @@") (Some 3%Z) (Some 1%Z) None None;
    mkFile "b.png" None "modified" None (Some 0%Z) (Some 2%Z) None None;
    mkFile "c.bin" None "modified" None (Some 5%Z) (Some 0%Z) None None ].

End DiffTerms.

(** Shareable URLs. *)
Module UrlTerms.

Import JS Url.
Local Open Scope string_scope.

(** [s.includes(sub)] *)
Fixpoint includesStr (sub s : string) : bool :=
  startsWith sub s ||
  match s with
  | EmptyString => false
  | String _ s' => includesStr sub s'
  end.

(** What [encodeURIComponent] writes for one code unit. *)
Definition encUnit (c : ascii) : string :=
  if isUnreserved c then String c "" else percentBytes (Encoding.utf8Unit c).

(** A part of the path: not empty, made of code units that the URL parser
    leaves as they are, and without [..]. *)
Definition component (s : string) : Prop :=
  s <> "" /\ forallChars isPathChar s = true /\ includesStr ".." s = false.

Definition shareable (owner name base head filter : string) : Prop :=
  component owner /\ includes "/" owner = false
  /\ component name /\ includes "/" name = false
  /\ component base /\ endsWithChar "." base = false
  /\ component head /\ endsWithChar "/" head = false
  /\ trim filter = filter.

(** The conditions of [shareable] on the parts of the path alone. *)
Definition shareableParts (owner name base head : string) : Prop :=
  component owner /\ includes "/" owner = false
  /\ component name /\ includes "/" name = false
  /\ component base /\ endsWithChar "." base = false
  /\ component head /\ endsWithChar "/" head = false.

Definition sharePath (owner name base head : string) : string :=
  urlPrefix ++ (owner ++ "/" ++ name) ++ "/" ++ base ++ ".." ++ head.

Definition shareQuery (filter : string) : string :=
  if truthy filter then "?filter=" ++ encodeURIComponent filter else "".

Definition searchOf (filter : string) : string :=
  if truthy filter
  then "?" ++ encodeQuery ("filter=" ++ encodeURIComponent filter)
  else "".

End UrlTerms.

(** The glob matcher, further. *)
Module GlobMoreTerms.

Import JS.
Local Open Scope string_scope.

(** A path agrees with a pattern without [*]: it has a code unit for each
    code unit of the pattern, any one but the separator for [?], the same
    one for the others. *)
Fixpoint agrees (pattern path : string) : bool :=
  match pattern, path with
  | EmptyString, EmptyString => true
  | String c pattern', String a path' =>
      (if Ascii.eqb c "?" then negb (Ascii.eqb a "/") else Ascii.eqb c a)
      && agrees pattern' path'
  | _, _ => false
  end.

End GlobMoreTerms.

(** The state token, further. *)
Module TokenMore.

Import JS OAuth.
Local Open Scope string_scope.

(** A lower-case hexadecimal digit. *)
Definition isLowerHex (c : ascii) : bool :=
  let n := nat_of_ascii c in
  ((48 <=? n) && (n <=? 57) || (97 <=? n) && (n <=? 102))%nat.

End TokenMore.

(** The worker's handler. *)
Module WorkerTerms.

Import JS OAuth Worker.
Local Open Scope string_scope.

Definition isDecDigit (c : ascii) : bool :=
  let n := nat_of_ascii c in ((48 <=? n) && (n <=? 57))%nat.

(** A character of a UUID: a hexadecimal digit or a hyphen. *)
Definition isUuidChar (c : ascii) : bool :=
  let n := nat_of_ascii c in
  ((48 <=? n) && (n <=? 57) || (97 <=? n) && (n <=? 102)
   || (65 <=? n) && (n <=? 70) || (n =? 45))%nat.

(** A letter, a digit, a hyphen or a dot. *)
Definition isPlainChar (c : ascii) : bool :=
  Url.isAlnum c || Ascii.eqb c "-" || Ascii.eqb c ".".

Definition noSpace (s : string) : bool :=
  forallChars (fun c => negb (isWhiteSpace c)) s.



(** The state that [/login] makes at time [now] with the UUID [uuid], and
    that state signed. *)
Definition loginState (now : Z) (uuid : string) : string :=
  numberToString now ++ "-" ++ uuid.

Definition signedOf (secret state : string) : string :=
  state ++ "." ++ TokenTerms.sigHex secret state.

(** The headers of a response. *)
Definition headersOf (r : response) : list (string * string) :=
  match r with
  | Plain _ _ headers => headers
  | Redirect _ _ headers => headers
  end.

End WorkerTerms.

(* ================================================================= *)
(** ** The token in the URL fragment ([handleOAuthCallback] of [app.js])

    The worker's [/callback] redirects to the page with the token in the
    fragment; the page stores it and clears the fragment. *)

Module AppAuth.

Import JS Url UrlTerms.
Local Open Scope string_scope.

(** What the function reads and writes: [window.location], the
    [github_token] item of [localStorage], and the variable
    [accessToken]. *)
Record browser : Type := mkBrowser
  { hash : string;
    path : string;                    (* window.location.pathname *)
    query : string;                   (* window.location.search *)
    github_token : option string;     (* localStorage *)
    accessToken : option string }.

(** [history.replaceState(null, "", url)] parses [url] against the address
    of the page and makes it the address, when it is of the same origin.
    It is modelled where [url] has no fragment and [parseURL] reads it: a
    path elsewhere on the page's origin.  [None] is a [url] outside of
    that, such as one that starts with [//] and so names another host, for
    which the call throws a [SecurityError]. *)
Definition replaceState (b : browser) (url : string) : option browser :=
  if includes "#" url then None
  else
    match parseURL url with
    | Some loc =>
        Some (mkBrowser "" (pathname loc) (search loc) (github_token b)
                        (accessToken b))
    | None => None
    end.

(** [None] when the fragment is outside of what [searchParams] covers, or
    the pathname outside of what [replaceState] covers; the token is
    stored by then. *)
Definition handleOAuthCallback (b : browser) : option browser :=
  if includesStr "access_token=" (hash b) then
    match searchParams (sliceFrom 1 (hash b)) with
    | None => None
    | Some params =>
        let token := get params "access_token" in
        if negb (falsy token) then
          let stored := mkBrowser (hash b) (path b) (query b) token token in
          (* Clear the hash from URL *)
          replaceState stored (path b)
        else Some b
    end
  else Some b.

(** A pathname that [replaceState] reads as itself: it starts with one [/],
    is made of code units that the URL parser leaves as they are, and has
    no dot segment. *)
Definition ownPath (pathname : string) : bool :=
  startsWith "/" pathname
  && negb (startsWith "//" pathname) && negb (startsWith "/\" pathname)
  && forallChars isPathChar pathname
  && negb (existsb isDotSegment (split "/" pathname)).

(** A code unit of a token: a letter, a digit or an underscore. *)
Definition isTokenChar (c : ascii) : bool :=
  isAlnum c || Ascii.eqb c "_".

End AppAuth.

(* ================================================================= *)
(** * Properties *)

(** ** Strings *)

Module JSFacts.

Import JS.
Local Open Scope string_scope.

Lemma append_nil_r (s : string) : s ++ "" = s.
Proof. induction s; simpl; congruence. Qed.

Lemma append_assoc (a b c : string) : (a ++ b) ++ c = a ++ (b ++ c).
Proof. induction a; simpl; congruence. Qed.

Lemma length_append (a b : string) :
  String.length (a ++ b) = String.length a + String.length b.
Proof. induction a; simpl; congruence. Qed.

Lemma includes_append (c : ascii) (a b : string) :
  includes c (a ++ b) = includes c a || includes c b.
Proof.
  induction a as [|x a IH]; simpl; [reflexivity|].
  rewrite IH. apply orb_assoc.
Qed.

Lemma includes_cons_false (c a : ascii) (s : string) :
  includes c (String a s) = false -> Ascii.eqb a c = false /\ includes c s = false.
Proof. simpl. apply orb_false_elim. Qed.

(** Splitting on a separator of one code unit. *)
Lemma split_cons (c a : ascii) (s : string) :
  split (String c "") (String a s)
  = if Ascii.eqb a c then "" :: split (String c "") s
    else consHead a (split (String c "") s).
Proof.
  unfold split. simpl. rewrite (Ascii.eqb_sym c a).
  destruct (Ascii.eqb a c); reflexivity.
Qed.

Lemma split_not_nil (c : ascii) (s : string) : split (String c "") s <> [].
Proof.
  induction s as [|a s IH]; [discriminate|].
  rewrite split_cons. destruct (Ascii.eqb a c); [discriminate|].
  destruct (split (String c "") s); [contradiction|discriminate].
Qed.

(** A string without the separator is its only piece. *)
Lemma split_absent (c : ascii) (s : string) :
  includes c s = false -> split (String c "") s = [s].
Proof.
  induction s as [|a s IH]; intros H; [reflexivity|].
  apply includes_cons_false in H as [Ha Hs].
  rewrite split_cons, Ha, (IH Hs). reflexivity.
Qed.

(** The first separator ends the first piece. *)
Lemma split_at_first (c : ascii) (p s : string) :
  includes c p = false ->
  split (String c "") (p ++ String c s) = p :: split (String c "") s.
Proof.
  induction p as [|a p IH]; intros H.
  - simpl. rewrite split_cons, Ascii.eqb_refl. reflexivity.
  - apply includes_cons_false in H as [Ha Hp].
    simpl. rewrite split_cons, Ha, (IH Hp). reflexivity.
Qed.

(** No piece contains the separator. *)
Lemma split_pieces (c : ascii) (s : string) :
  Forall (fun p => includes c p = false) (split (String c "") s).
Proof.
  induction s as [|a s IH]; [repeat constructor|].
  rewrite split_cons. destruct (Ascii.eqb a c) eqn:E.
  - constructor; [reflexivity|assumption].
  - destruct (split (String c "") s) as [|x xs]; simpl.
    + repeat constructor. simpl. now rewrite E.
    + inversion IH; subst. constructor; [|assumption].
      simpl. now rewrite E.
Qed.

(** A string that contains the separator: a first piece without it, the
    separator, and the rest. *)
Lemma includes_cut (c : ascii) (s : string) :
  includes c s = true ->
  exists p q, s = p ++ String c q /\ includes c p = false.
Proof.
  induction s as [|a s IH]; [discriminate|]. simpl.
  destruct (Ascii.eqb a c) eqn:E; intros H.
  - apply Ascii.eqb_eq in E. subst. exists "", s. split; reflexivity.
  - destruct (IH H) as (p & q & -> & Hp).
    exists (String a p), q. split; [reflexivity|]. simpl. now rewrite E.
Qed.

(** A code unit absent from a string is absent from its pieces. *)
Lemma split_pieces_absent (x c : ascii) (s : string) :
  includes x s = false ->
  Forall (fun p => includes x p = false) (split (String c "") s).
Proof.
  induction s as [|a s IH]; intros H; [repeat constructor|].
  apply includes_cons_false in H as [Ha Hs]. specialize (IH Hs).
  rewrite split_cons. destruct (Ascii.eqb a c).
  - constructor; [reflexivity|assumption].
  - destruct (split (String c "") s) as [|y ys]; simpl.
    + repeat constructor. simpl. now rewrite Ha.
    + inversion IH; subst. constructor; [|assumption].
      simpl. now rewrite Ha.
Qed.

Lemma countChar_append (c : ascii) (a b : string) :
  countChar c (a ++ b) = countChar c a + countChar c b.
Proof. induction a as [|x a IH]; simpl; [reflexivity|]. rewrite IH. lia. Qed.

Lemma join_split (c : ascii) (s : string) :
  join (String c "") (split (String c "") s) = s.
Proof.
  induction s as [|a s IH]; [reflexivity|].
  rewrite split_cons. destruct (Ascii.eqb a c) eqn:E.
  - apply Ascii.eqb_eq in E. subst.
    pose proof (split_not_nil c s) as N.
    destruct (split (String c "") s) as [|x xs] eqn:S; [contradiction|].
    change (join (String c "") ("" :: x :: xs))
      with ("" ++ String c "" ++ join (String c "") (x :: xs)).
    rewrite IH. reflexivity.
  - pose proof (split_not_nil c s) as N.
    destruct (split (String c "") s) as [|x xs] eqn:S; [contradiction|].
    simpl consHead. destruct xs as [|y ys].
    + simpl in *. congruence.
    + change (join (String c "") (String a x :: y :: ys))
        with (String a (x ++ String c "" ++ join (String c "") (y :: ys))).
      change (join (String c "") (x :: y :: ys))
        with (x ++ String c "" ++ join (String c "") (y :: ys)) in IH.
      congruence.
Qed.

Lemma falsy_some (s : string) : s <> "" -> falsy (Some s) = false.
Proof. destruct s; [contradiction|reflexivity]. Qed.

Lemma orElse_some (s d : string) : s <> "" -> orElse (Some s) d = s.
Proof. destruct s; [contradiction|reflexivity]. Qed.

(** Splitting distributes over a separator. *)
Lemma split_append (c : ascii) (q r : string) :
  split (String c "") (q ++ String c r)
  = (split (String c "") q ++ split (String c "") r)%list.
Proof.
  induction q as [|a q IH].
  - simpl append. rewrite split_cons, Ascii.eqb_refl. reflexivity.
  - cbn [append]. rewrite !split_cons, IH.
    destruct (Ascii.eqb a c); [reflexivity|].
    pose proof (split_not_nil c q) as N.
    destruct (split (String c "") q); [contradiction|reflexivity].
Qed.

Lemma append_not_empty (q r : string) (c : ascii) : q ++ String c r <> "".
Proof. destruct q; discriminate. Qed.

Lemma orElse_empty (s : string) : orElse (Some s) "" = s.
Proof. destruct s; reflexivity. Qed.

(** The first piece, when the separator does not occur before [s]. *)
Lemma split_prefix_absent (c : ascii) (p s : string) :
  includes c p = false ->
  split (String c "") (p ++ s)
  = match split (String c "") s with
    | x :: rest => (p ++ x) :: rest
    | [] => [p]
    end.
Proof.
  induction p as [|a p IH]; intros H.
  - simpl. destruct (split (String c "") s) eqn:E; [|reflexivity].
    now apply split_not_nil in E.
  - apply includes_cons_false in H as [Ha Hp].
    cbn [append]. rewrite split_cons, Ha, (IH Hp).
    destruct (split (String c "") s); reflexivity.
Qed.

(** *** [parseInt] stops at a dot *)

Lemma trimStart_append (p x : string) (c : ascii) :
  isWhiteSpace c = false ->
  trimStart (p ++ String c x) = trimStart p ++ String c x.
Proof.
  intros Hc. induction p as [|a p IH]; simpl.
  - now rewrite Hc.
  - destruct (isWhiteSpace a); [exact IH|reflexivity].
Qed.

Lemma digitValue_dot (r : Z) : digitValue r "." = None.
Proof. reflexivity. Qed.

Lemma readDigits_dot (r : Z) (acc : option Z) (s x : string) :
  readDigits r acc (s ++ String "." x) = readDigits r acc s.
Proof.
  revert acc. induction s as [|a s IH]; intros acc; [reflexivity|].
  cbn [append readDigits]. destruct (digitValue r a); [apply IH|reflexivity].
Qed.

Lemma parseInt_dot (p x : string) :
  parseInt (p ++ String "." x) = parseInt p.
Proof.
  unfold parseInt. rewrite trimStart_append by reflexivity.
  destruct (trimStart p) as [|a t]; [destruct x; reflexivity|]. cbn [append].
  assert (R : forall (sign : Z) (s1 : string),
    (let '(radix, s2) :=
       match s1 ++ String "." x with
       | String a (String b t) =>
           if Ascii.eqb a "0" && (Ascii.eqb b "x" || Ascii.eqb b "X")
           then (16%Z, t) else (10%Z, s1 ++ String "." x)
       | _ => (10%Z, s1 ++ String "." x)
       end in
     match readDigits radix None s2 with
     | Some v => Num (sign * v) | None => NaN end)
    = (let '(radix, s2) :=
       match s1 with
       | String a (String b t) =>
           if Ascii.eqb a "0" && (Ascii.eqb b "x" || Ascii.eqb b "X")
           then (16%Z, t) else (10%Z, s1)
       | _ => (10%Z, s1)
       end in
     match readDigits radix None s2 with
     | Some v => Num (sign * v) | None => NaN end)).
  { intros sign [|a1 [|b1 t1]]; cbn [append].
    - destruct x; reflexivity.
    - rewrite andb_false_r.
      change (String a1 (String "." x)) with (String a1 "" ++ String "." x).
      now rewrite readDigits_dot.
    - destruct (Ascii.eqb a1 "0" && (Ascii.eqb b1 "x" || Ascii.eqb b1 "X")).
      + now rewrite readDigits_dot.
      + change (String a1 (String b1 (t1 ++ String "." x)))
          with (String a1 (String b1 t1) ++ String "." x).
        now rewrite readDigits_dot. }
  destruct (Ascii.eqb a "-"); [apply R|].
  destruct (Ascii.eqb a "+"); [apply R|].
  apply (R 1%Z (String a t)).
Qed.

End JSFacts.

(* ================================================================= *)
(** ** SHA-256 and HMAC: test vectors *)

Module CryptoFacts.

Example sha256_abc :
  Crypto.hex (Crypto.sha256 (Encoding.encode "abc"))
  = "ba7816bf8f01cfea414140de5dae2223b00361a396177a9cb410ff61f20015ad".
Proof. vm_compute. reflexivity. Qed.

Example sha256_empty :
  Crypto.hex (Crypto.sha256 [])
  = "e3b0c44298fc1c149afbf4c8996fb92427ae41e4649b934ca495991b7852b855".
Proof. vm_compute. reflexivity. Qed.

Example hmac_fox :
  Crypto.hex (Crypto.hmac (Encoding.encode "key")
     (Encoding.encode "The quick brown fox jumps over the lazy dog"))
  = "f7bc83f430538424b13298e6aa6fb143ef4d59a14946175997479dbc2d1a3cd8".
Proof. vm_compute. reflexivity. Qed.

Example hmac_long_key :
  Crypto.hex (Crypto.hmac (repeat x6b 70) (Encoding.encode "1000-a"))
  = "34edd310a4d668912e09ccbed6f3a1d021c361b1ab3dcd1f8d9bc5bd54c423e7".
Proof. vm_compute. reflexivity. Qed.

(** A key shorter than a block is filled with zero bytes: a trailing zero
    byte does not change the key. *)
Lemma blockKey_zero_padding (key : list byte) :
  List.length key < Crypto.blockSize ->
  Crypto.blockKey (key ++ [x00]) = Crypto.blockKey key.
Proof.
  unfold Crypto.blockKey, Crypto.blockSize. intros L.
  rewrite List.length_app. cbn [List.length].
  replace (Nat.ltb 64 (List.length key + 1)) with false
    by (symmetry; apply Nat.ltb_ge; lia).
  replace (Nat.ltb 64 (List.length key)) with false
    by (symmetry; apply Nat.ltb_ge; lia).
  cbv zeta iota. rewrite <- app_assoc, List.length_app. f_equal.
  cbn [List.length].
  replace (64 - List.length key) with (S (64 - (List.length key + 1))) by lia.
  reflexivity.
Qed.

Lemma hmac_zero_padding (key msg : list byte) :
  List.length key < Crypto.blockSize ->
  Crypto.hmac (key ++ [x00]) msg = Crypto.hmac key msg.
Proof. intros L. unfold Crypto.hmac. now rewrite blockKey_zero_padding. Qed.

End CryptoFacts.

(* ================================================================= *)
(** ** Counting: more secrets than signatures *)

Module Counting.

Import TokenTerms.

(** A function on a list without repetition either takes one value twice
    or gives a list without repetition. *)
Lemma collision_or_NoDup (X Y : Type)
                         (eqY : forall a b : Y, {a = b} + {a <> b})
                         (f : X -> Y) (l : list X) :
  NoDup l ->
  (exists x y, In x l /\ In y l /\ x <> y /\ f x = f y)
  \/ NoDup (map f l).
Proof.
  induction l as [|a l IH]; intros N.
  - right. constructor.
  - inversion N as [|? ? Ha Nl]; subst.
    destruct (IH Nl) as [(x & y & Hx & Hy & D & E)|M].
    + left. exists x, y. repeat split; try assumption; now right.
    + destruct (in_dec eqY (f a) (map f l)) as [I|I].
      * left. apply in_map_iff in I as (y & E & Hy).
        exists a, y. repeat split; [now left|now right| |now symmetry].
        intros ->. contradiction.
      * right. cbn [map]. now constructor.
Qed.

(** The pigeonhole principle. *)
Lemma collision (X Y : Type) (eqY : forall a b : Y, {a = b} + {a <> b})
                (f : X -> Y) (l : list X) (l' : list Y) :
  NoDup l ->
  (forall x, In x l -> In (f x) l') ->
  List.length l' < List.length l ->
  exists x y, In x l /\ In y l /\ x <> y /\ f x = f y.
Proof.
  intros N I L. destruct (collision_or_NoDup X Y eqY f l N) as [C|M];
    [exact C|].
  exfalso.
  assert (B : List.length (map f l) <= List.length l').
  { apply (NoDup_incl_length M).
    intros y Hy. apply in_map_iff in Hy as (x & <- & Hx). now apply I. }
  rewrite length_map in B. apply (Nat.lt_irrefl (List.length l)).
  now apply Nat.le_lt_trans with (List.length l').
Qed.

Lemma length_words (A : Type) (alphabet : list A) (n : nat) :
  List.length (words alphabet n) = List.length alphabet ^ n.
Proof.
  induction n as [|n IH]; [reflexivity|]. cbn [words].
  rewrite (flat_map_constant_length (c := List.length (words alphabet n))).
  - rewrite IH. reflexivity.
  - intros a _. apply length_map.
Qed.

Lemma in_words (A : Type) (alphabet : list A) (w : list A) :
  Forall (fun a => In a alphabet) w ->
  In w (words alphabet (List.length w)).
Proof.
  induction w as [|a w IH]; intros F; [now left|].
  inversion F as [|? ? Ha Fw]; subst. cbn [List.length words].
  apply in_flat_map. exists a. split; [assumption|].
  apply in_map. now apply IH.
Qed.

Lemma words_in (A : Type) (alphabet : list A) (n : nat) (w : list A) :
  In w (words alphabet n) ->
  List.length w = n /\ Forall (fun a => In a alphabet) w.
Proof.
  revert w. induction n as [|n IH]; intros w I.
  - destruct I as [<-|[]]. now split.
  - cbn [words] in I. apply in_flat_map in I as (a & Ha & I).
    apply in_map_iff in I as (w' & <- & I).
    destruct (IH w' I) as [L F]. split; [cbn; now rewrite L|].
    now constructor.
Qed.

Lemma NoDup_prefixed (A : Type) (W : list (list A)) (letters : list A) :
  NoDup W -> NoDup letters ->
  NoDup (flat_map (fun a => map (cons a) W) letters).
Proof.
  intros NW. induction letters as [|a letters IH]; intros NL; [constructor|].
  inversion NL as [|? ? Ha NL']; subst. cbn [flat_map].
  apply NoDup_app.
  - apply NoDup_map_NoDup_ForallPairs; [|assumption].
    intros x y _ _ E. now inversion E.
  - now apply IH.
  - intros x I J. apply in_map_iff in I as (w & <- & _).
    apply in_flat_map in J as (b & Hb & J).
    apply in_map_iff in J as (w' & E & _). inversion E; subst. contradiction.
Qed.

Lemma NoDup_words (A : Type) (alphabet : list A) (n : nat) :
  NoDup alphabet -> NoDup (words alphabet n).
Proof.
  intros N. induction n as [|n IH].
  - constructor; [intros []|constructor].
  - cbn [words]. now apply NoDup_prefixed.
Qed.

Lemma in_allBytes (b : byte) : In b allBytes.
Proof.
  unfold allBytes. apply in_map_iff. exists (N.to_nat (Byte.to_N b)). split.
  - rewrite N2Nat.id. unfold Encoding.byteOfN.
    rewrite N.mod_small, Byte.of_to_N; [reflexivity|].
    pose proof (Byte.to_N_bounded b). lia.
  - apply in_seq. pose proof (Byte.to_N_bounded b). lia.
Qed.

Lemma length_allBytes : List.length allBytes = 256.
Proof. reflexivity. Qed.

Lemma NoDup_keyLetters : NoDup keyLetters.
Proof.
  unfold keyLetters. cbn [list_ascii_of_string].
  repeat (constructor;
          [cbn [In]; intros H;
           repeat (destruct H as [H|H]; [discriminate H|]); exact H|]).
  constructor.
Qed.

Lemma length_keyLetters : List.length keyLetters = 17.
Proof. reflexivity. Qed.

(** There are more lists of 64 letters than lists of 32 bytes. *)
Lemma fewer_signatures :
  List.length (words allBytes 32) < List.length (words keyLetters 64).
Proof.
  rewrite !length_words, length_allBytes, length_keyLetters.
  apply Nat.lt_le_trans with (289 ^ 32).
  - apply Nat.pow_lt_mono_l; [discriminate|]. apply Nat.ltb_lt. reflexivity.
  - change 289 with (17 ^ 2). rewrite <- Nat.pow_mul_r. apply Nat.le_refl.
Qed.

End Counting.

(* ================================================================= *)
(** ** The signed state token *)

Module OAuthFacts.

Import JS JSFacts OAuth TokenTerms.
Local Open Scope string_scope.

(** *** Hexadecimal text *)

Lemma hexByte_shape (b : byte) :
  exists x y, Crypto.hexByte b = String x (String y "")
              /\ Ascii.eqb x "." = false /\ Ascii.eqb y "." = false.
Proof. destruct b; do 2 eexists; repeat split. Qed.

Lemma hex_no_dot (bs : list byte) : includes "." (Crypto.hex bs) = false.
Proof.
  induction bs as [|b bs IH]; [reflexivity|]. cbn [Crypto.hex].
  destruct (hexByte_shape b) as (x & y & -> & Hx & Hy).
  simpl. now rewrite Hx, Hy, IH.
Qed.

Lemma hex_not_empty (bs : list byte) : bs <> [] -> Crypto.hex bs <> "".
Proof.
  destruct bs as [|b bs]; [contradiction|]. intros _. cbn [Crypto.hex].
  destruct (hexByte_shape b) as (x & y & -> & _). discriminate.
Qed.

Lemma unhexByte_hexByte (b : byte) (s : string) :
  unhexByte (Crypto.hexByte b ++ s) = b.
Proof. destruct b; reflexivity. Qed.

Lemma hexByte_append_inj (a b : byte) (s t : string) :
  Crypto.hexByte a ++ s = Crypto.hexByte b ++ t -> a = b /\ s = t.
Proof.
  intros H. assert (E : a = b).
  { rewrite <- (unhexByte_hexByte a s), <- (unhexByte_hexByte b t). now rewrite H. }
  subst. split; [reflexivity|].
  destruct (hexByte_shape b) as (x & y & Hb & _). rewrite Hb in H.
  simpl in H. congruence.
Qed.

Lemma hex_inj (bs cs : list byte) : Crypto.hex bs = Crypto.hex cs -> bs = cs.
Proof.
  revert cs. induction bs as [|b bs IH]; intros [|c cs] H; cbn [Crypto.hex] in H.
  - reflexivity.
  - destruct (hexByte_shape c) as (x & y & Hc & _). rewrite Hc in H. discriminate.
  - destruct (hexByte_shape b) as (x & y & Hb & _). rewrite Hb in H. discriminate.
  - apply hexByte_append_inj in H as [-> H]. f_equal. now apply IH.
Qed.

(** *** The digest is never empty *)

Lemma bigEndian_length (n : nat) (v : N) :
  List.length (Crypto.bigEndian n v) = n.
Proof.
  unfold Crypto.bigEndian.
  now rewrite List.length_map, List.length_rev, List.length_seq.
Qed.

(** A digest has 32 bytes. *)
Lemma digest_length (h : Crypto.state) : List.length (Crypto.digest h) = 32.
Proof.
  unfold Crypto.digest. cbn [flat_map].
  repeat rewrite List.length_app. repeat rewrite bigEndian_length. reflexivity.
Qed.

Lemma sha256_length (msg : list byte) : List.length (Crypto.sha256 msg) = 32.
Proof. apply digest_length. Qed.

Lemma sha256_not_nil (msg : list byte) : Crypto.sha256 msg <> [].
Proof.
  intros H. pose proof (sha256_length msg) as L. rewrite H in L. discriminate.
Qed.

Lemma tag_not_nil (secret state : string) : tag secret state <> [].
Proof. unfold tag, Crypto.hmac. apply sha256_not_nil. Qed.

Lemma sigHex_not_empty (secret state : string) : sigHex secret state <> "".
Proof. apply hex_not_empty, tag_not_nil. Qed.

Lemma sigHex_no_dot (secret state : string) :
  includes "." (sigHex secret state) = false.
Proof. apply hex_no_dot. Qed.

(** *** Signing *)

Lemma encode_not_nil (s : string) : s <> "" -> Encoding.encode s <> [].
Proof.
  destruct s as [|c s]; [contradiction|]. intros _. simpl.
  unfold Encoding.utf8Unit. destruct (N_of_ascii c <? 128)%N; discriminate.
Qed.

Lemma signState_ok (state secret : string) :
  secret <> "" ->
  signState state secret = Ok (state ++ "." ++ sigHex secret state).
Proof.
  intros H. unfold signState, importKey, sigHex, tag.
  destruct (Encoding.encode secret) eqn:E.
  - now apply encode_not_nil in H.
  - reflexivity.
Qed.

Lemma signState_empty_secret (state : string) :
  signState state "" = Throw DataError.
Proof. reflexivity. Qed.

(** *** Verifying *)

(** What [verifyState] answers on a token that has a state and a
    signature. *)
Lemma verifyState_parts (signedState secret state signature : string)
                        (rest : list string) (now : Z) :
  split "." signedState = state :: signature :: rest ->
  state <> "" -> signature <> "" -> secret <> "" ->
  verifyState signedState secret now
  = Ok (if String.eqb signature (sigHex secret state)
        then if subGt now (timestampOf state) expiry then None else Some state
        else None).
Proof.
  intros S Hs Hg Hk. unfold verifyState. rewrite S. simpl at_.
  rewrite (falsy_some _ Hs), (falsy_some _ Hg). simpl orb. cbv iota.
  rewrite (orElse_some _ _ Hs), (signState_ok _ _ Hk). simpl bind.
  assert (D : includes "." state = false).
  { pose proof (split_pieces "." signedState) as F. rewrite S in F.
    now inversion F. }
  rewrite (split_at_first "." state _ D).
  rewrite (split_absent "." _ (sigHex_no_dot secret state)). simpl at_.
  unfold strictEq, timestampOf.
  destruct (String.eqb signature (sigHex secret state)); simpl negb; cbv iota;
    [|reflexivity].
  destruct (subGt _ _ _); reflexivity.
Qed.

(** Whatever [verifyState] returns is the first piece of the token. *)
Lemma verifyState_returns (signedState secret s : string) (now : Z) :
  verifyState signedState secret now = Ok (Some s) ->
  at_ (split "." signedState) 0 = Some s.
Proof.
  unfold verifyState.
  destruct (at_ (split "." signedState) 0) as [[|c state]|] eqn:E0;
    try (simpl; discriminate).
  destruct (falsy (at_ (split "." signedState) 1)); simpl orb; cbv iota;
    [discriminate|].
  set (st := String c state). change (orElse (Some st) "") with st.
  destruct (signState st secret) as [x|e]; simpl bind; [|discriminate].
  destruct (negb _); [discriminate|].
  destruct (subGt _ _ _); [discriminate|].
  intros H. now inversion H.
Qed.

(** The token of a state without [.] splits into the state and its
    signature. *)
Lemma split_token (state sig : string) :
  includes "." state = false -> includes "." sig = false ->
  split "." (state ++ "." ++ sig) = [state; sig].
Proof.
  intros Hs Hg. change (state ++ "." ++ sig) with (state ++ String "." sig).
  rewrite (split_at_first "." state sig Hs), (split_absent "." sig Hg).
  reflexivity.
Qed.

Lemma signThenVerify_plain (state secretA secretB : string) (now : Z) :
  includes "." state = false -> state <> "" ->
  secretA <> "" -> secretB <> "" ->
  signThenVerify state secretA secretB now
  = Ok (if String.eqb (sigHex secretA state) (sigHex secretB state)
        then if subGt now (timestampOf state) expiry then None else Some state
        else None).
Proof.
  intros D Hs HA HB. unfold signThenVerify.
  rewrite (signState_ok _ _ HA). simpl bind.
  apply verifyState_parts with (rest := []); auto.
  - apply split_token; [assumption|apply sigHex_no_dot].
  - apply sigHex_not_empty.
Qed.

Lemma timestamp_not_empty (state : string) (t : Z) :
  timestampOf state = Num t -> state <> "".
Proof. intros H ->. discriminate. Qed.

(** Decide the expiry test by arithmetic. *)
Ltac expired :=
  unfold subGt, expiry;
  match goal with
  | |- context [Z.ltb ?a ?b] =>
      first [ replace (Z.ltb a b) with true by (symmetry; apply Z.ltb_lt; lia)
            | replace (Z.ltb a b) with false by (symmetry; apply Z.ltb_ge; lia) ]
  end.

(** The timestamp of a state is that of its part before the first [.]. *)
Lemma timestampOf_dot (p q : string) :
  timestampOf (p ++ String "." q) = timestampOf p.
Proof.
  unfold timestampOf. destruct (includes "-" p) eqn:D.
  - destruct (includes_cut _ _ D) as (p1 & p2 & -> & H1).
    rewrite append_assoc. cbn [append].
    now rewrite !(split_at_first "-" p1 _ H1).
  - rewrite (split_prefix_absent "-" p _ D), (split_absent "-" p D).
    rewrite split_cons. cbn [Ascii.eqb Bool.eqb]. cbv iota.
    pose proof (split_not_nil "-" q) as N.
    destruct (split "-" q) as [|x rest]; [contradiction|].
    cbn [consHead at_ nth_error]. rewrite !orElse_empty. apply parseInt_dot.
Qed.

(** A token is invalid eleven minutes after the timestamp of its state,
    whether the state contains the delimiter or not. *)
Lemma signThenVerify_expired (state secret : string) (t : Z) :
  timestampOf state = Num t -> secret <> "" ->
  signThenVerify state secret secret (t + 11 * 60 * 1000) = Ok None.
Proof.
  intros T K. destruct (includes "." state) eqn:D.
  - destruct (includes_cut _ _ D) as (p & q & -> & Hp).
    rewrite timestampOf_dot in T.
    unfold signThenVerify. rewrite (signState_ok _ _ K). simpl bind.
    set (sig := sigHex secret (p ++ String "." q)).
    assert (S : split "." ((p ++ String "." q) ++ String "." sig)
                = p :: split "." (q ++ String "." sig)).
    { rewrite append_assoc. cbn [append]. now apply split_at_first. }
    pose proof (split_not_nil "." (q ++ String "." sig)) as N.
    destruct (split "." (q ++ String "." sig)) as [|g rest] eqn:G;
      [contradiction|].
    destruct p as [|c p]; [discriminate T|].
    destruct g as [|d g]; [unfold verifyState; now rewrite S|].
    rewrite (verifyState_parts _ _ _ _ _ _ S) by (assumption || discriminate).
    rewrite T. destruct (String.eqb _ _); [|reflexivity]. now expired.
  - rewrite signThenVerify_plain; try assumption.
    + rewrite String.eqb_refl, T. now expired.
    + exact (timestamp_not_empty _ _ T).
Qed.

(** *** Different keys with the same signature *)

Lemma tag_length (secret state : string) : List.length (tag secret state) = 32.
Proof. unfold tag, Crypto.hmac. apply sha256_length. Qed.

Lemma tag_in_words (secret state : string) :
  In (tag secret state) (words allBytes 32).
Proof.
  rewrite <- (tag_length secret state). apply Counting.in_words.
  apply Forall_forall. intros b _. apply Counting.in_allBytes.
Qed.

Lemma utf8Unit_letter (c : ascii) :
  In c keyLetters -> Encoding.utf8Unit c = [letterByte c].
Proof.
  unfold keyLetters. cbn [list_ascii_of_string In].
  intros H. repeat (destruct H as [<-|H]; [reflexivity|]). contradiction.
Qed.

(** The key that a secret of letters stands for: a byte for each letter. *)
Lemma encode_letters (w : list ascii) :
  Forall (fun c => In c keyLetters) w ->
  Encoding.encode (string_of_list_ascii w) = map letterByte w.
Proof.
  induction w as [|c w IH]; intros F; [reflexivity|].
  inversion F as [|? ? Hc Fw]; subst.
  cbn [string_of_list_ascii Encoding.encode map].
  now rewrite (utf8Unit_letter c Hc), (IH Fw).
Qed.

Lemma letterByte_inverse (c : ascii) : ascii_of_byte (letterByte c) = c.
Proof. destruct c as [[] [] [] [] [] [] [] []]; reflexivity. Qed.

Lemma letterBytes_inj (v w : list ascii) :
  map letterByte v = map letterByte w -> v = w.
Proof.
  intros E. apply (f_equal (map ascii_of_byte)) in E.
  rewrite !map_map in E.
  rewrite !(map_ext _ (fun c => c) letterByte_inverse), !map_id in E.
  exact E.
Qed.

(** A key of exactly one block is used as it is. *)
Lemma blockKey_one_block (key : list byte) :
  List.length key = Crypto.blockSize -> Crypto.blockKey key = key.
Proof.
  intros L. unfold Crypto.blockKey. rewrite L, Nat.ltb_irrefl, L, Nat.sub_diag.
  apply app_nil_r.
Qed.

(** Whatever the state, two secrets that are different HMAC keys sign it
    alike: there are more keys of one block than signatures. *)
Lemma key_collision (state : string) :
  exists secretA secretB,
    secretA <> "" /\ secretB <> ""
    /\ Crypto.blockKey (Encoding.encode secretA)
       <> Crypto.blockKey (Encoding.encode secretB)
    /\ tag secretA state = tag secretB state.
Proof.
  destruct (Counting.collision (list ascii) (list byte)
              (list_eq_dec Byte.byte_eq_dec)
              (fun w => tag (string_of_list_ascii w) state)
              (words keyLetters 64) (words allBytes 32))
    as (v & w & Hv & Hw & D & E).
  - apply Counting.NoDup_words, Counting.NoDup_keyLetters.
  - intros x _. apply tag_in_words.
  - exact Counting.fewer_signatures.
  - apply Counting.words_in in Hv as [Lv Fv].
    apply Counting.words_in in Hw as [Lw Fw].
    exists (string_of_list_ascii v), (string_of_list_ascii w).
    split; [|split; [|split; [|exact E]]].
    + destruct v; [discriminate Lv|discriminate].
    + destruct w; [discriminate Lw|discriminate].
    + rewrite (encode_letters v Fv), (encode_letters w Fw).
      rewrite !blockKey_one_block by (now rewrite length_map).
      intros K. apply D. now apply letterBytes_inj.
Qed.

End OAuthFacts.

Module OAuthClaims.

Import JS JSFacts OAuth TokenTerms OAuthFacts.
Local Open Scope string_scope.

(** C3, as stated, fails three times.  A state that contains the
    delimiter does not come back: the token of ["1000-a.b"], verified with
    the same secret at its creation time, is refused.  Two secrets that
    differ only by trailing zero code units are the same HMAC key: the
    token signed with ["k"] is accepted under the secret made of [k] and
    U+0000.  And being different HMAC keys is not enough either: there are
    more keys of one block than signatures of 32 bytes, so some two secrets
    that are different keys sign the state alike, and the token of one is
    accepted under the other. *)
Lemma C3_counterexample :
  timestampOf "1000-a.b" = Num 1000
  /\ signThenVerify "1000-a.b" "k" "k" 1000 = Ok None
  /\ "k" <> String "k" (String zero "")
  /\ signThenVerify "1000-a" "k" (String "k" (String zero "")) 1000
     = Ok (Some "1000-a")
  /\ exists secretA secretB,
       Crypto.blockKey (Encoding.encode secretA)
       <> Crypto.blockKey (Encoding.encode secretB)
       /\ signThenVerify "1000-a" secretA secretB 1000 = Ok (Some "1000-a").
Proof.
  split; [reflexivity|]. split; [vm_compute; reflexivity|].
  split; [discriminate|]. split; [vm_compute; reflexivity|].
  destruct (key_collision "1000-a") as (a & b & Na & Nb & K & E).
  exists a, b. split; [exact K|].
  rewrite signThenVerify_plain by (assumption || reflexivity || discriminate).
  unfold sigHex. rewrite E, String.eqb_refl. reflexivity.
Qed.

(** C3, amended: for a state whose leading segment reads as the timestamp
    [t], and a non-empty secret: when the state does not contain the
    delimiter [.], the token verified with the same secret at time [t] gives
    the state back; at [t] plus 11 minutes it is invalid; and when the state
    does not contain the delimiter, the token verified at time [now] with
    another non-empty secret is invalid exactly when the two secrets give
    the state different HMACs or more than 10 minutes have passed since
    [t]; with a secret that is the same HMAC key it is accepted until
    then. *)
Theorem C3_sign_then_verify (state secret secretB : string) (t now : Z) :
  timestampOf state = Num t ->
  secret <> "" ->
  (includes "." state = false ->
   signThenVerify state secret secret t = Ok (Some state))
  /\ signThenVerify state secret secret (t + 11 * 60 * 1000) = Ok None
  /\ (includes "." state = false -> secretB <> "" ->
      (signThenVerify state secret secretB now = Ok None
       <-> tag secret state <> tag secretB state
           \/ (10 * 60 * 1000 < now - t)%Z)
      /\ (Crypto.blockKey (Encoding.encode secret)
          = Crypto.blockKey (Encoding.encode secretB) ->
          (now - t <= 10 * 60 * 1000)%Z ->
          signThenVerify state secret secretB now = Ok (Some state))).
Proof.
  intros T K. pose proof (timestamp_not_empty _ _ T) as S.
  split; [|split].
  - intros D. rewrite signThenVerify_plain by assumption.
    rewrite String.eqb_refl, T. now expired.
  - now apply signThenVerify_expired.
  - intros D KB. rewrite signThenVerify_plain by assumption.
    rewrite T. unfold subGt, expiry. split.
    + destruct (String.eqb (sigHex secret state) (sigHex secretB state)) eqn:E.
      * apply String.eqb_eq, hex_inj in E.
        destruct (10 * 60 * 1000 <? now - t)%Z eqn:X.
        -- apply Z.ltb_lt in X. split; [now right|reflexivity].
        -- apply Z.ltb_ge in X. split; [discriminate|].
           intros [N|L]; [contradiction|lia].
      * split; [|reflexivity]. intros _. left. intros N.
        unfold sigHex in E. rewrite N, String.eqb_refl in E. discriminate E.
    + intros B L.
      assert (E : tag secret state = tag secretB state)
        by (unfold tag, Crypto.hmac; now rewrite B).
      unfold sigHex. rewrite E, String.eqb_refl.
      replace (10 * 60 * 1000 <? now - t)%Z with false; [reflexivity|].
      symmetry. apply Z.ltb_ge. exact L.
Qed.

Lemma C3_sign_then_verify_witness :
  signThenVerify "1000-a" "k" "k" 1000 = Ok (Some "1000-a")
  /\ signThenVerify "1000-a" "k" "k" (1000 + 11 * 60 * 1000) = Ok None
  /\ signThenVerify "1000-a" "k" "j" 5 = Ok None
  /\ signThenVerify "1000-a" "k" (String "k" (String zero "")) 5
     = Ok (Some "1000-a").
Proof.
  destruct (C3_sign_then_verify "1000-a" "k" "j" 1000 5) as (A & B & C).
  - reflexivity.
  - discriminate.
  - destruct (C3_sign_then_verify "1000-a" "k" (String "k" (String zero ""))
                1000 5) as (_ & _ & C').
    + reflexivity.
    + discriminate.
    + split; [apply A; reflexivity|]. split; [exact B|]. split.
      * apply C; [reflexivity|discriminate|].
        left. vm_compute. discriminate.
      * apply C'; [reflexivity|discriminate|vm_compute; reflexivity|lia].
Defined.

(** C9: a token with a state and a signature, whose signature is the one
    recomputed from the state, is accepted at every verification time when
    the leading segment of the state does not read as a number, and at
    every verification time earlier than the timestamp when it does. *)
Theorem C9_no_expiry_without_timestamp
    (signedState secret state signature : string) (rest : list string) (now : Z) :
  split "." signedState = state :: signature :: rest ->
  state <> "" -> secret <> "" ->
  signature = sigHex secret state ->
  (timestampOf state = NaN
   \/ exists t, timestampOf state = Num t /\ (now < t)%Z) ->
  verifyState signedState secret now = Ok (Some state).
Proof.
  intros S Hs Hk -> Ht.
  rewrite (verifyState_parts _ _ _ _ _ _ S Hs (sigHex_not_empty _ _) Hk).
  rewrite String.eqb_refl.
  destruct Ht as [-> | (t & -> & Hlt)]; [reflexivity|]. now expired.
Qed.

Lemma C9_no_expiry_without_timestamp_witness :
  verifyState
    "abc-1.c048761ae244b8009448cff3c9fc29e8f993529044b71646a76feebdd4145182"
    "k" 99999999999999
  = Ok (Some "abc-1").
Proof.
  apply (C9_no_expiry_without_timestamp
           "abc-1.c048761ae244b8009448cff3c9fc29e8f993529044b71646a76feebdd4145182"
           "k" "abc-1"
           "c048761ae244b8009448cff3c9fc29e8f993529044b71646a76feebdd4145182"
           [] 99999999999999).
  - reflexivity.
  - discriminate.
  - discriminate.
  - vm_compute. reflexivity.
  - left. reflexivity.
Defined.

(** C10: for a state that contains the delimiter [.], signing and then
    verifying with the same secret never gives the state back; what is
    returned, if anything, is the part of the state before its first [.]. *)
Theorem C10_delimiter_in_state (state secret : string) (now : Z) :
  includes "." state = true ->
  signThenVerify state secret secret now <> Ok (Some state)
  /\ forall r, signThenVerify state secret secret now = Ok (Some r) ->
               includes "." r = false
               /\ exists q, state = r ++ "." ++ q.
Proof.
  intros D.
  assert (R : forall r, signThenVerify state secret secret now = Ok (Some r) ->
                        includes "." r = false /\ exists q, state = r ++ "." ++ q).
  { intros r H. unfold signThenVerify in H.
    destruct secret as [|k secret]; [discriminate|].
    rewrite signState_ok in H by discriminate. simpl bind in H.
    apply verifyState_returns in H.
    destruct (includes_cut _ _ D) as (p & q & -> & Hp).
    rewrite append_assoc in H.
    cbn [append] in H.
    rewrite (split_at_first "." p _ Hp) in H. simpl in H.
    inversion H; subst. split; [assumption|]. now exists q. }
  split; [|exact R].
  intros H. destruct (R _ H) as [N _]. congruence.
Qed.

Lemma C10_delimiter_in_state_witness :
  signThenVerify "1000-a.b" "k" "k" 1000 <> Ok (Some "1000-a.b")
  /\ forall r, signThenVerify "1000-a.b" "k" "k" 1000 = Ok (Some r) ->
               includes "." r = false
               /\ exists q, "1000-a.b" = r ++ "." ++ q.
Proof.
  apply (C10_delimiter_in_state "1000-a.b" "k" 1000). reflexivity.
Defined.

(** A state that contains the delimiter can come back shortened: when what
    follows its first [.] is the signature of what precedes it. *)
Example prefix_returned :
  signThenVerify "a.78da91511e675587f5b9df78bedebaf5560da2abb88162ee875dcdf744951d9e"
                 "k" "k" 0
  = Ok (Some "a").
Proof. vm_compute. reflexivity. Qed.

End OAuthClaims.

(* ================================================================= *)
(** ** Regular expressions and the glob matcher *)

Module GlobFacts.

Import JS JSFacts RegExp Glob GlobTerms.
Local Open Scope string_scope.

(** *** The class of [escapeRegex] *)

(** The class that [escapeRegex] is written with has the code units of
    [escapeSet] for members. *)
Example escapeRegex_class :
  compile "[.+^${}()|[\]\\]"
  = Some (Seq (Chr (Class false (list_ascii_of_string escapeSet))) Eps).
Proof. reflexivity. Qed.

(** Every syntax character of a pattern but [*] and [?], which
    [segmentPattern] translates, is in the class. *)
Lemma escapeSet_covers (c : ascii) :
  includes c "^$\.*+?()[]{}|" = true ->
  Ascii.eqb c "*" = false -> Ascii.eqb c "?" = false ->
  includes c escapeSet = true.
Proof.
  destruct c as [[] [] [] [] [] [] [] []]; try discriminate; reflexivity.
Qed.

(** *** Parsing, piece by piece *)

Lemma run_app (st : pstate) (a b : string) :
  run st (a ++ b)
  = match run st a with Some st' => run st' b | None => None end.
Proof.
  revert st. induction a as [|c a IH]; intros st; simpl; [reflexivity|].
  destruct (step st c); [apply IH|reflexivity].
Qed.

Lemma reads_nil : reads "" [].
Proof.
  intros st H. exists st. split; [reflexivity|]. now repeat split.
Qed.

Lemma reads_app (a b : string) (ta tb : list re) :
  reads a ta -> reads b tb -> reads (a ++ b) (ta ++ tb)%list.
Proof.
  intros Ha Hb st H.
  destruct (Ha st H) as (st1 & R1 & M1 & S1 & A1 & C1).
  destruct (Hb st1 M1) as (st2 & R2 & M2 & S2 & A2 & C2).
  exists st2. split; [now rewrite run_app, R1|].
  repeat split; try congruence.
  rewrite C2, C1, rev_app_distr, app_assoc. reflexivity.
Qed.

(** A source text that is read, from any state in normal mode, as one
    pushed term. *)
Lemma reads_pushed (src : string) (t : re) (fl : follow) :
  (forall k f, run (mkP k f Normal) src = Some (pushTerm t fl (mkP k f Normal))) ->
  reads src [t].
Proof.
  intros R [k f m] H. simpl in H. subst m.
  eexists. split; [apply R|]. now repeat split.
Qed.

Lemma reads_star : reads "[^/]*" [Star (Chr notSlash)].
Proof. now apply reads_pushed with (fl := Quantified). Qed.

Lemma reads_question : reads "[^/]" [Chr notSlash].
Proof. now apply reads_pushed with (fl := Quantifiable). Qed.

Lemma reads_slash : reads "/" [Chr (Lit "/")].
Proof. now apply reads_pushed with (fl := Quantifiable). Qed.

Lemma reads_anySuffix : reads ".*" [anySuffix].
Proof. now apply reads_pushed with (fl := Quantified). Qed.

Lemma reads_anySegments : reads "(?:.*/)?" [anySegments].
Proof. now apply reads_pushed with (fl := Quantified). Qed.

(** The heart of [escapeRegex]: a code unit other than [*] and [?] is
    read back as itself, whether it was escaped or not. *)
Lemma reads_escaped (c : ascii) :
  Ascii.eqb c "*" = false -> Ascii.eqb c "?" = false ->
  reads (escapeRegex (String c "")) [Chr (Lit c)].
Proof.
  intros H1 H2. apply reads_pushed with (fl := Quantifiable). intros k f.
  destruct c as [[] [] [] [] [] [] [] []];
    try discriminate H1; try discriminate H2; reflexivity.
Qed.

Lemma reads_charTerm (c : ascii) :
  reads (segmentPattern (String c "")) [charTerm c].
Proof.
  unfold charTerm. cbn [segmentPattern]. rewrite append_nil_r.
  destruct (Ascii.eqb c "*") eqn:E1; [apply reads_star|].
  destruct (Ascii.eqb c "?") eqn:E2; [apply reads_question|].
  now apply reads_escaped.
Qed.

Lemma segmentPattern_cons (c : ascii) (s : string) :
  segmentPattern (String c s) = segmentPattern (String c "") ++ segmentPattern s.
Proof. cbn [segmentPattern]. now rewrite append_nil_r. Qed.

Lemma reads_segment (segment : string) :
  reads (segmentPattern segment) (segmentTerms segment).
Proof.
  induction segment as [|c s IH]; [apply reads_nil|].
  rewrite segmentPattern_cons.
  change (segmentTerms (String c s)) with ([charTerm c] ++ segmentTerms s)%list.
  apply reads_app; [apply reads_charTerm|apply IH].
Qed.

Lemma reads_regexPattern (segments : list string) :
  reads (regexPattern segments) (globTerms segments).
Proof.
  induction segments as [|seg rest IH]; [apply reads_nil|].
  cbn [regexPattern globTerms]. apply reads_app; [|apply IH].
  destruct (String.eqb seg "**").
  - destruct rest; [apply reads_anySuffix|apply reads_anySegments].
  - apply reads_app; [apply reads_segment|].
    destruct rest; [apply reads_nil|apply reads_slash].
Qed.

Lemma reads_bol : reads "^" [Bol].
Proof. now apply reads_pushed with (fl := Closed). Qed.

Lemma reads_eol : reads "$" [Eol].
Proof. now apply reads_pushed with (fl := Closed). Qed.

(** A source text that reads as terms compiles to their sequence. *)
Lemma compile_reads (src : string) (ts : list re) :
  reads src ts -> compile src = Some (seqOf ts).
Proof.
  intros R. unfold compile.
  destruct (R initial eq_refl) as (st & -> & M & S & A & C).
  destruct st as [k [al cu la] m]. simpl in M, S, A, C. subst.
  unfold finish, close. cbn.
  rewrite app_nil_r, rev_involutive. reflexivity.
Qed.

(** [new RegExp] accepts the source text of every pattern, and the
    pattern it builds is [globRegex]. *)
Theorem compile_regexSource (pattern : string) :
  compile (regexSource pattern) = Some (globRegex pattern).
Proof.
  apply (compile_reads (regexSource pattern)
           ([Bol] ++ globTerms (split "/" pattern) ++ [Eol])%list).
  unfold regexSource.
  apply reads_app; [apply reads_bol|].
  apply reads_app; [apply reads_regexPattern|apply reads_eol].
Qed.

Theorem matchGlob_eq (pattern path : string) :
  matchGlob pattern path
  = Ok (match pattern with
        | EmptyString => true
        | _ => test (globRegex pattern) path
        end).
Proof.
  unfold matchGlob. destruct pattern; [reflexivity|].
  now rewrite compile_regexSource.
Qed.

(** [matchGlob] never throws. *)
Corollary matchGlob_returns (pattern path : string) :
  exists b, matchGlob pattern path = Ok b.
Proof. rewrite matchGlob_eq. eauto. Qed.

(** *** Matching *)

Lemma matchesAt_true (r : re) (i : pos) :
  matchesAt r i = true <-> exists j, reach r i j.
Proof.
  unfold matchesAt, reach. destruct (ends r i) as [|j l].
  - split; [discriminate|]. intros [j []].
  - split; [|reflexivity]. intros _. exists j. now left.
Qed.

Lemma matchesAt_false (r : re) (i : pos) :
  matchesAt r i = false <-> forall j, ~ reach r i j.
Proof.
  rewrite <- Bool.not_true_iff_false, matchesAt_true.
  split; [intros H j R; apply H; eauto|intros H [j R]; exact (H j R)].
Qed.

Lemma reach_seq (r1 r2 : re) (i j : pos) :
  reach (Seq r1 r2) i j <-> exists m, reach r1 i m /\ reach r2 m j.
Proof. unfold reach. cbn [ends]. apply in_flat_map. Qed.

Lemma reach_eps (i j : pos) : reach Eps i j <-> j = i.
Proof.
  unfold reach. simpl. split; [intros [H|[]]; auto|intros H; auto].
Qed.

Lemma reach_eol (i j : pos) : reach Eol i j <-> j = i /\ snd i = "".
Proof.
  unfold reach. cbn [ends]. destruct (snd i); simpl.
  - split; [intros [H|[]]; auto|intros [H _]; auto].
  - split; [intros []|intros [_ H]; discriminate H].
Qed.

Lemma reach_chr (cs : charset) (i j : pos) :
  reach (Chr cs) i j
  <-> exists c, snd i = String c (snd j) /\ inSet cs c = true /\ fst j = false.
Proof.
  unfold reach. cbn [ends]. destruct i as [b s], j as [b' s']. simpl.
  destruct s as [|c s].
  - split; [intros []|intros (c & H & _); discriminate H].
  - destruct (inSet cs c) eqn:E; simpl.
    + split.
      * intros [H|[]]. inversion H; subst. exists c. auto.
      * intros (c' & H & _ & F). inversion H; subst. now left.
    + split; [intros []|]. intros (c' & H & I & _). inversion H; subst.
      congruence.
Qed.

Lemma reach_seqOf_app (a b : list re) (i j : pos) :
  reach (seqOf (a ++ b)) i j
  <-> exists m, reach (seqOf a) i m /\ reach (seqOf b) m j.
Proof.
  revert i. induction a as [|t a IH]; intros i.
  - simpl. split.
    + intros H. exists i. split; [now apply reach_eps|assumption].
    + intros (m & Hm & H). apply reach_eps in Hm. now subst.
  - change (seqOf ((t :: a) ++ b)) with (Seq t (seqOf (a ++ b))).
    change (seqOf (t :: a)) with (Seq t (seqOf a)).
    rewrite reach_seq. split.
    + intros (m & Ht & H). apply IH in H as (m' & Ha & Hb).
      exists m'. split; [|assumption]. apply reach_seq. eauto.
    + intros (m' & Ha & Hb). apply reach_seq in Ha as (m & Ht & Ha).
      exists m. split; [assumption|]. apply IH. eauto.
Qed.

(** Without the [m] flag, [^] matches at the start of the input only: a
    pattern that begins with it matches from index 0 or not at all. *)
Lemma searchFrom_bol (r : re) (s : string) :
  searchFrom (Seq Bol r) false s = false.
Proof. induction s as [|c s IH]; [reflexivity|]. simpl. exact IH. Qed.

Lemma test_anchored (r : re) (s : string) :
  test (Seq Bol r) s = matchesAt r (true, s).
Proof.
  unfold test. destruct s as [|c s]; cbn [searchFrom].
  - unfold matchesAt. cbn [ends fst flat_map]. rewrite app_nil_r.
    now rewrite orb_false_r.
  - rewrite searchFrom_bol, orb_false_r.
    unfold matchesAt. cbn [ends fst flat_map]. now rewrite app_nil_r.
Qed.

Lemma test_globRegex (pattern path : string) :
  test (globRegex pattern) path
  = matchesAt (seqOf (globTerms (split "/" pattern) ++ [Eol])) (true, path).
Proof. apply test_anchored. Qed.

(** *** Repetition of a set of code units *)

Lemma starEnds_chr_sound (cs : charset) (n : nat) (i j : pos) :
  In j (starEnds (ends (Chr cs)) n i) ->
  exists w, snd i = w ++ snd j /\ forallChars (inSet cs) w = true.
Proof.
  revert i. induction n as [|n IH]; intros i H; cbn [starEnds] in H.
  - destruct H as [<-|[]]. now exists "".
  - destruct H as [<-|H]; [now exists ""|].
    apply in_flat_map in H as (m & Hm & H).
    apply reach_chr in Hm as (c & Hi & Hc & _).
    destruct (String.length (snd m) <? String.length (snd i))%nat; [|contradiction].
    apply IH in H as (w & Hw & Hall).
    exists (String c w). split; [rewrite Hi, Hw; reflexivity|].
    simpl. now rewrite Hc.
Qed.

Lemma starEnds_chr_complete (cs : charset) (w s : string) (n : nat) (b : bool) :
  forallChars (inSet cs) w = true ->
  String.length (w ++ s) <= n ->
  exists b', In (b', s) (starEnds (ends (Chr cs)) n (b, w ++ s)).
Proof.
  revert n b. induction w as [|c w IH]; intros n b H L.
  - exists b. destruct n; now left.
  - simpl in H. apply andb_prop in H as [Hc Hw].
    destruct n as [|n]; [simpl in L; lia|].
    destruct (IH n false Hw) as (b' & I); [simpl in L; lia|].
    exists b'. cbn [starEnds]. right. apply in_flat_map.
    exists (false, w ++ s). split.
    + apply reach_chr. exists c. repeat split; assumption.
    + cbn [snd]. replace (_ <? _)%nat with true; [assumption|].
      symmetry. apply Nat.ltb_lt. simpl. lia.
Qed.

Lemma reach_star_chr (cs : charset) (i j : pos) :
  reach (Star (Chr cs)) i j ->
  exists w, snd i = w ++ snd j /\ forallChars (inSet cs) w = true.
Proof. apply starEnds_chr_sound. Qed.

(** *** Patterns without a [**] segment *)

Lemma segmentTerms_app (a b : string) :
  segmentTerms (a ++ b) = (segmentTerms a ++ segmentTerms b)%list.
Proof. induction a as [|c a IH]; simpl; [reflexivity|]. now rewrite IH. Qed.

(** When no segment is [**], the terms are those of the code units of the
    pattern, separators included. *)
Lemma globTerms_join (segments : list string) :
  Forall plainSegment segments ->
  globTerms segments = segmentTerms (join "/" segments).
Proof.
  induction segments as [|seg rest IH]; intros F; [reflexivity|].
  inversion F as [|? ? Hseg Hrest]; subst. specialize (IH Hrest).
  cbn [globTerms]. rewrite Hseg, IH. destruct rest as [|r rs].
  - simpl. now rewrite !app_nil_r.
  - change (join "/" (seg :: r :: rs)) with (seg ++ "/" ++ join "/" (r :: rs)).
    rewrite !segmentTerms_app, <- app_assoc. reflexivity.
Qed.

Lemma globTerms_plain (pattern : string) :
  Forall plainSegment (split "/" pattern) ->
  globTerms (split "/" pattern) = segmentTerms pattern.
Proof. intros F. now rewrite (globTerms_join _ F), join_split. Qed.

Lemma no_star_plain (pattern : string) :
  includes "*" pattern = false -> Forall plainSegment (split "/" pattern).
Proof.
  intros H. eapply Forall_impl; [|apply (split_pieces_absent "*" "/" _ H)].
  intros seg Hs. unfold plainSegment.
  destruct (String.eqb seg "**") eqn:E; [|reflexivity].
  apply String.eqb_eq in E. subst. discriminate.
Qed.

(** A pattern with neither [*] nor [?] matches itself and nothing else. *)
Lemma matchesAt_literal (p s : string) (b : bool) :
  includes "*" p = false -> includes "?" p = false ->
  matchesAt (seqOf (segmentTerms p ++ [Eol])) (b, s) = String.eqb p s.
Proof.
  revert s b. induction p as [|c p IH]; intros s b H1 H2.
  - destruct s; reflexivity.
  - apply includes_cons_false in H1 as [C1 H1].
    apply includes_cons_false in H2 as [C2 H2].
    cbn [segmentTerms app seqOf fold_right]. unfold charTerm. rewrite C1, C2.
    fold (seqOf (segmentTerms p ++ [Eol])).
    unfold matchesAt. cbn [ends snd]. destruct s as [|a s]; [reflexivity|].
    cbn [inSet String.eqb]. destruct (Ascii.eqb c a); [|reflexivity].
    cbn [flat_map]. rewrite app_nil_r. apply (IH s false H1 H2).
Qed.

Theorem matchGlob_literal (pattern path : string) :
  pattern <> "" ->
  includes "*" pattern = false -> includes "?" pattern = false ->
  matchGlob pattern path = Ok (String.eqb pattern path).
Proof.
  intros N H1 H2. rewrite matchGlob_eq.
  destruct pattern as [|c p] eqn:E; [contradiction|]. rewrite <- E in *.
  rewrite test_globRegex, (globTerms_plain _ (no_star_plain _ H1)).
  now rewrite matchesAt_literal.
Qed.

(** *** Wildcards stay inside their segment *)





(** *** The pattern [**] *)

(** [**] matches the paths without a line terminator, and no other. *)
Theorem matchGlob_doublestar (path : string) :
  matchGlob "**" path = Ok (noLineTerminator path).
Proof.
  rewrite matchGlob_eq, test_globRegex.
  change (globTerms (split "/" "**") ++ [Eol])%list with [anySuffix; Eol].
  f_equal. apply Bool.eq_true_iff_eq. rewrite matchesAt_true. split.
  - intros (j & R). change (seqOf [anySuffix; Eol])
      with (Seq anySuffix (Seq Eol Eps)) in R.
    apply reach_seq in R as (m & R1 & R2).
    apply reach_seq in R2 as (m' & R2 & _). apply reach_eol in R2 as [_ Hm].
    apply reach_star_chr in R1 as (w & Hw & Hall).
    simpl in Hw. rewrite Hm, append_nil_r in Hw. now subst.
  - intros H.
    destruct (starEnds_chr_complete AnyChar path "" (String.length path) true H)
      as (b' & I); [now rewrite append_nil_r|].
    rewrite append_nil_r in I.
    exists (b', ""). change (seqOf [anySuffix; Eol])
      with (Seq anySuffix (Seq Eol Eps)).
    apply reach_seq. exists (b', ""). split; [exact I|].
    apply reach_seq. exists (b', ""). split; [now apply reach_eol|].
    now apply reach_eps.
Qed.

(** *** Matching does not look past what it consumes

    A pattern without [^] and [$] that matches from a position still
    matches when the input is longer, and wherever the position is. *)

Lemma starEnds_extend (body : pos -> list pos) (y : string) :
  extensible body y ->
  forall n n' b s b' s' b2,
    n <= n' ->
    In (b', s') (starEnds body n (b, s)) ->
    exists b2', In (b2', s' ++ y) (starEnds body n' (b2, s ++ y)).
Proof.
  intros E. induction n as [|n IH]; intros n' b s b' s' b2 L H.
  - destruct H as [H|[]]. inversion H; subst.
    exists b2. destruct n'; now left.
  - cbn [starEnds] in H. destruct H as [H|H].
    + inversion H; subst. exists b2. destruct n'; now left.
    + destruct n' as [|n']; [lia|].
      apply in_flat_map in H as ([bm sm] & Hm & H). cbn [snd] in H.
      destruct (String.length sm <? String.length s)%nat eqn:Lt; [|contradiction].
      destruct (E _ _ _ _ b2 Hm) as (bm2 & Hm2).
      destruct (IH n' bm sm b' s' bm2 ltac:(lia) H) as (b2' & H2).
      exists b2'. cbn [starEnds]. right. apply in_flat_map.
      exists (bm2, sm ++ y). split; [exact Hm2|]. cbn [snd].
      replace (_ <? _)%nat with true; [exact H2|].
      symmetry. apply Nat.ltb_lt. apply Nat.ltb_lt in Lt.
      rewrite !length_append. lia.
Qed.

Lemma ends_extend (r : re) (y : string) :
  anchorFree r = true -> extensible (ends r) y.
Proof.
  induction r as [| cs | | | r1 IH1 r2 IH2 | r1 IH1 r2 IH2 | r IH | r IH | r IH];
    intros A b s b' s' b2 H; cbn [anchorFree] in A; try discriminate.
  - destruct H as [H|[]]. inversion H; subst. exists b2. now left.
  - apply (reach_chr cs (b, s) (b', s')) in H as (c & Hs & Hc & Hb).
    simpl in Hs, Hb. subst. exists false.
    apply (reach_chr cs (b2, String c s' ++ y) (false, s' ++ y)).
    exists c. now repeat split.
  - apply andb_prop in A as [A1 A2].
    apply (reach_seq r1 r2 (b, s) (b', s')) in H as ([bm sm] & H1 & H2).
    destruct (IH1 A1 _ _ _ _ b2 H1) as (bm2 & H1').
    destruct (IH2 A2 _ _ _ _ bm2 H2) as (b2' & H2').
    exists b2'. apply (reach_seq r1 r2 (b2, s ++ y) (b2', s' ++ y)). eauto.
  - apply andb_prop in A as [A1 A2]. cbn [ends] in H. apply in_app_or in H.
    destruct H as [H|H].
    + destruct (IH1 A1 _ _ _ _ b2 H) as (b2' & H').
      exists b2'. cbn [ends]. apply in_or_app. now left.
    + destruct (IH2 A2 _ _ _ _ b2 H) as (b2' & H').
      exists b2'. cbn [ends]. apply in_or_app. now right.
  - cbn [ends snd] in *.
    apply (starEnds_extend (ends r) y (IH A) _ (String.length (s ++ y)) _ _ _ _ b2)
      in H; [exact H|].
    rewrite length_append. lia.
  - cbn [ends] in H. apply in_flat_map in H as ([bm sm] & H1 & H2).
    destruct (IH A _ _ _ _ b2 H1) as (bm2 & H1'). cbn [snd] in H2.
    apply (starEnds_extend (ends r) y (IH A) _ (String.length (sm ++ y)) _ _ _ _ bm2)
      in H2; [|rewrite length_append; lia].
    destruct H2 as (b2' & H2). exists b2'. cbn [ends].
    apply in_flat_map. exists (bm2, sm ++ y). split; assumption.
  - cbn [ends] in H. apply in_app_or in H. destruct H as [H|[H|[]]].
    + destruct (IH A _ _ _ _ b2 H) as (b2' & H').
      exists b2'. cbn [ends]. apply in_or_app. now left.
    + inversion H; subst. exists b2. cbn [ends]. apply in_or_app.
      right. now left.
Qed.

Lemma anchorFree_seqOf (ts : list re) :
  forallb anchorFree ts = true -> anchorFree (seqOf ts) = true.
Proof.
  induction ts as [|t ts IH]; [reflexivity|]. simpl.
  intros H. apply andb_prop in H as [Ht Hts]. now rewrite Ht, IH.
Qed.

(** *** Patterns with a [**] segment *)

Lemma globTerms_app (l1 l2 : list string) :
  l2 <> [] -> globTerms (l1 ++ l2) = (leadingTerms l1 ++ globTerms l2)%list.
Proof.
  intros N. induction l1 as [|seg rest IH]; [reflexivity|].
  cbn [app globTerms leadingTerms]. rewrite IH, <- app_assoc.
  destruct (rest ++ l2)%list eqn:E; [|reflexivity].
  apply app_eq_nil in E as [_ E]. contradiction.
Qed.

Lemma anchorFree_segmentTerms (segment : string) :
  forallb anchorFree (segmentTerms segment) = true.
Proof.
  induction segment as [|c s IH]; [reflexivity|]. simpl. rewrite IH.
  unfold charTerm. destruct (Ascii.eqb c "*"); [reflexivity|].
  destruct (Ascii.eqb c "?"); reflexivity.
Qed.

Lemma anchorFree_leadingTerms (segments : list string) :
  forallb anchorFree (leadingTerms segments) = true.
Proof.
  induction segments as [|seg rest IH]; [reflexivity|].
  cbn [leadingTerms]. rewrite forallb_app, IH, andb_true_r.
  destruct (String.eqb seg "**"); [reflexivity|].
  now rewrite forallb_app, anchorFree_segmentTerms.
Qed.

Lemma anchorFree_globTerms (segments : list string) :
  forallb anchorFree (globTerms segments) = true.
Proof.
  induction segments as [|seg rest IH]; [reflexivity|].
  cbn [globTerms]. rewrite forallb_app, IH, andb_true_r.
  destruct (String.eqb seg "**"); [now destruct rest|].
  rewrite forallb_app, anchorFree_segmentTerms. now destruct rest.
Qed.

Lemma matchGlob_nonempty (pattern path : string) :
  pattern <> "" ->
  matchGlob pattern path
  = Ok (matchesAt (seqOf (globTerms (split "/" pattern) ++ [Eol])) (true, path)).
Proof.
  intros N. rewrite matchGlob_eq. destruct pattern; [contradiction|].
  now rewrite test_globRegex.
Qed.

(** A match of the whole path by terms followed by [$]: the terms consume
    the path. *)
Lemma matches_to_end (ts : list re) (b : bool) (path : string) :
  matchesAt (seqOf (ts ++ [Eol])) (b, path) = true
  <-> exists b', reach (seqOf ts) (b, path) (b', "").
Proof.
  rewrite matchesAt_true. split.
  - intros (j & R). apply reach_seqOf_app in R as ([bm sm] & R1 & R2).
    change (seqOf [Eol]) with (Seq Eol Eps) in R2.
    apply reach_seq in R2 as (m' & R2 & _). apply reach_eol in R2 as [_ Hm].
    simpl in Hm. subst. eauto.
  - intros (b' & R). exists (b', ""). apply reach_seqOf_app.
    exists (b', ""). split; [exact R|].
    change (seqOf [Eol]) with (Seq Eol Eps). apply reach_seq.
    exists (b', ""). split; [now apply reach_eol|now apply reach_eps].
Qed.

Lemma reach_anySuffix (b : bool) (y : string) :
  noLineTerminator y = true -> exists b', reach anySuffix (b, y) (b', "").
Proof.
  intros H.
  destruct (starEnds_chr_complete AnyChar y "" (String.length y) b H)
    as (b' & I); [now rewrite append_nil_r|].
  rewrite append_nil_r in I. now exists b'.
Qed.

Lemma reach_anySegments (b : bool) (mid z : string) :
  wholeSegments mid -> exists b', reach anySegments (b, mid ++ z) (b', z).
Proof.
  intros [->|(w & -> & H)].
  - exists b. unfold reach, anySegments. cbn [ends]. apply in_or_app.
    right. now left.
  - rewrite append_assoc. cbn [append].
    destruct (starEnds_chr_complete AnyChar w (String "/" z)
                (String.length (w ++ String "/" z)) b H) as (b1 & I); [lia|].
    exists false. unfold reach, anySegments. cbn [ends]. apply in_or_app. left.
    apply in_flat_map. exists (b1, String "/" z). split; [exact I|].
    apply in_flat_map. exists (false, z). split; [|now left].
    apply (reach_chr (Lit "/") (b1, String "/" z) (false, z)).
    exists "/"%char. now repeat split.
Qed.

(** X15: when [q/] matches [x], [q/**] matches [x] followed by any
    suffix without a line terminator, separators included. *)
Theorem final_doublestar (q x y : string) :
  matchGlob (q ++ "/") x = Ok true ->
  noLineTerminator y = true ->
  matchGlob (q ++ "/**") (x ++ y) = Ok true.
Proof.
  rewrite !matchGlob_nonempty by apply append_not_empty.
  rewrite !split_append.
  rewrite !globTerms_app by discriminate.
  change (globTerms (split "/" "")) with (@nil re).
  change (globTerms (split "/" "**")) with [anySuffix].
  rewrite app_nil_r. intros H Hy. injection H as H.
  apply matches_to_end in H as (b1 & R). f_equal.
  apply matches_to_end.
  destruct (ends_extend (seqOf (leadingTerms (split "/" q))) y
              (anchorFree_seqOf _ (anchorFree_leadingTerms _))
              _ _ _ _ true R) as (b2 & R2).
  cbn [append] in R2.
  destruct (reach_anySuffix b2 y Hy) as (b3 & R3).
  exists b3. apply reach_seqOf_app. exists (b2, y). split; [exact R2|].
  change (seqOf [anySuffix]) with (Seq anySuffix Eps).
  apply reach_seq. exists (b3, ""). split; [exact R3|now apply reach_eps].
Qed.

(** What follows a [**] segment matches after zero or more whole
    segments. *)
Lemma after_anySegments (ts : list re) (b : bool) (mid z : string) :
  forallb anchorFree ts = true ->
  wholeSegments mid ->
  (exists b', reach (seqOf ts) (true, z) (b', "")) ->
  exists b', reach (seqOf (anySegments :: ts)) (b, mid ++ z) (b', "").
Proof.
  intros A W (b1 & R).
  destruct (reach_anySegments b mid z W) as (b2 & R2).
  destruct (ends_extend (seqOf ts) "" (anchorFree_seqOf _ A) _ _ _ _ b2 R)
    as (b3 & R3).
  rewrite !append_nil_r in R3.
  exists b3. change (seqOf (anySegments :: ts)) with (Seq anySegments (seqOf ts)).
  apply reach_seq. exists (b2, z). split; [exact R2|exact R3].
Qed.

(** X16: when [q] matches [z], [**/q] matches [z] itself and [z] after
    any text that ends with a separator and has no line terminator: a
    [**] segment at the start matches zero or more whole segments. *)
Theorem leading_doublestar (q mid z : string) :
  q <> "" ->
  matchGlob q z = Ok true ->
  wholeSegments mid ->
  matchGlob ("**/" ++ q) (mid ++ z) = Ok true.
Proof.
  intros N H W. rewrite matchGlob_nonempty in H by assumption.
  rewrite matchGlob_nonempty by discriminate.
  change ("**/" ++ q) with ("**" ++ String "/" q).
  rewrite split_append, globTerms_app by apply split_not_nil.
  change (leadingTerms (split "/" "**")) with [anySegments].
  injection H as H. apply matches_to_end in H. f_equal.
  apply matches_to_end.
  apply (after_anySegments _ true mid z (anchorFree_globTerms _) W H).
Qed.

(** X17: when [q1/] matches [x] and [q2] matches [z], [q1/**/q2] matches
    [x] followed by [z], with nothing or with whole segments without a
    line terminator between them. *)
Theorem middle_doublestar (q1 q2 x mid z : string) :
  q2 <> "" ->
  matchGlob (q1 ++ "/") x = Ok true ->
  matchGlob q2 z = Ok true ->
  wholeSegments mid ->
  matchGlob (q1 ++ "/**/" ++ q2) (x ++ mid ++ z) = Ok true.
Proof.
  intros N H1 H2 W.
  rewrite matchGlob_nonempty in H1 by apply append_not_empty.
  rewrite matchGlob_nonempty in H2 by assumption.
  change (q1 ++ "/**/" ++ q2) with (q1 ++ String "/" ("**" ++ String "/" q2)).
  rewrite matchGlob_nonempty by apply append_not_empty.
  rewrite split_append, globTerms_app in H1 by discriminate.
  change (globTerms (split "/" "")) with (@nil re) in H1.
  rewrite app_nil_r in H1.
  rewrite split_append, globTerms_app.
  2:{ rewrite split_append. discriminate. }
  rewrite split_append, globTerms_app by apply split_not_nil.
  change (leadingTerms (split "/" "**")) with [anySegments].
  injection H1 as H1. injection H2 as H2.
  apply matches_to_end in H1 as (b1 & R1). apply matches_to_end in H2.
  f_equal. apply matches_to_end.
  destruct (ends_extend (seqOf (leadingTerms (split "/" q1))) (mid ++ z)
              (anchorFree_seqOf _ (anchorFree_leadingTerms _))
              _ _ _ _ true R1) as (b2 & R2).
  cbn [append] in R2.
  destruct (after_anySegments _ b2 mid z (anchorFree_globTerms _) W H2)
    as (b3 & R3).
  exists b3. apply reach_seqOf_app. exists (b2, mid ++ z). split; assumption.
Qed.

End GlobFacts.

Module GlobClaims.

Import JS JSFacts RegExp Glob GlobTerms GlobFacts.
Local Open Scope string_scope.

(** The three matches that the specification lists. *)
Example glob_examples :
  matchGlob "**/*.go" "a/b/c.go" = Ok true
  /\ matchGlob "*.go" "a/b/c.go" = Ok false
  /\ matchGlob "a/**/z" "a/z" = Ok true.
Proof. repeat split; vm_compute; reflexivity. Qed.

(** C4, where the code departs from it: [**] is compiled to [.*], and [.]
    does not match a line terminator, so a final [**] does not match a
    suffix that contains a line feed, and a [**] in the middle does not
    match a segment that contains one. *)
Theorem C4_doublestar_line_terminator :
  matchGlob "**" ("a" ++ lineFeed ++ "b") = Ok false
  /\ matchGlob "src/**" ("src/a" ++ lineFeed ++ "b") = Ok false
  /\ matchGlob "a/**/z" ("a/b" ++ lineFeed ++ "c/z") = Ok false.
Proof. repeat split; vm_compute; reflexivity. Qed.

(** C5: whatever the pattern, the regular expression that is compiled
    matches each code unit other than [*], [?] and the separator by that
    code unit itself ([globRegex]); so a pattern without [*] and [?]
    matches exactly the path equal to it, regular-expression
    metacharacters included. *)
Theorem C5_metacharacters_literal (pattern path : string) :
  compile (regexSource pattern) = Some (globRegex pattern)
  /\ (pattern <> "" ->
      includes "*" pattern = false -> includes "?" pattern = false ->
      matchGlob pattern path = Ok (String.eqb pattern path)).
Proof.
  split; [apply compile_regexSource|apply matchGlob_literal].
Qed.

Lemma C5_metacharacters_literal_witness :
  matchGlob "a.b" "axb" = Ok false
  /\ matchGlob "a.b" "a.b" = Ok true
  /\ matchGlob "x+(y|z)[0]{1}^$\.ts" "x+(y|z)[0]{1}^$\.ts" = Ok true.
Proof.
  split; [|split].
  - apply (C5_metacharacters_literal "a.b" "axb"); [discriminate|reflexivity..].
  - apply (C5_metacharacters_literal "a.b" "a.b"); [discriminate|reflexivity..].
  - apply (C5_metacharacters_literal "x+(y|z)[0]{1}^$\.ts" "x+(y|z)[0]{1}^$\.ts");
      [discriminate|reflexivity..].
Defined.

End GlobClaims.

(* ================================================================= *)
(** ** The unified-diff assembler *)

Module DiffFacts.

Import JS JSFacts Glob GlobTerms GlobFacts Diff DiffTerms.
Local Open Scope string_scope.

(** Filtering never throws: the filter always compiles. *)
Lemma filterFiles_ok (pathFilter : string) (files : list file) :
  filterFiles pathFilter files = Ok (filter (passes pathFilter) files).
Proof.
  induction files as [|f rest IH]; [reflexivity|].
  cbn [filterFiles filter]. rewrite matchGlob_eq, IH. reflexivity.
Qed.

Lemma filtered_ok (files : option (list file)) (pathFilter : string) :
  filtered files pathFilter
  = Ok (filter (passes pathFilter) (match files with Some l => l | None => [] end)).
Proof.
  unfold filtered. destruct pathFilter as [|c p].
  - f_equal. symmetry. apply forallb_filter_id.
    apply forallb_forall. reflexivity.
  - apply filterFiles_ok.
Qed.

Lemma sumOf_from (count : file -> option Z) (files : list file) (a : Z) :
  fold_left (fun sum f => (sum + orZero (count f))%Z) files a
  = (a + total count files)%Z.
Proof.
  revert a. induction files as [|f rest IH]; intros a; simpl; [lia|].
  rewrite IH. lia.
Qed.

Lemma sumOf_total (count : file -> option Z) (files : list file) :
  sumOf count files = total count files.
Proof. unfold sumOf. now rewrite sumOf_from. Qed.

(** What [loadDiff] shows, in terms of the files that pass the filter. *)
Lemma loadDiff_eq (files : option (list file)) (pathFilter : string) :
  loadDiff files pathFilter
  = match filter (passes pathFilter)
            (match files with Some l => l | None => [] end) with
    | [] => NoFilesMatch
    | kept =>
        Stats (mkShown (unifiedDiffOf kept) (List.length kept)
                       (total additions kept) (total deletions kept) pathFilter)
    end.
Proof.
  unfold loadDiff, assemble. rewrite filtered_ok. simpl bind.
  destruct (filter _ _); [reflexivity|]. now rewrite !sumOf_total.
Qed.

Lemma filter_setPatch (g : file -> option string) (pathFilter : string)
                      (files : list file) :
  filter (passes pathFilter) (map (setPatch g) files)
  = map (setPatch g) (filter (passes pathFilter) files).
Proof.
  induction files as [|f rest IH]; [reflexivity|]. simpl.
  replace (passes pathFilter (setPatch g f)) with (passes pathFilter f)
    by (destruct pathFilter; reflexivity).
  destruct (passes pathFilter f); simpl; now rewrite IH.
Qed.

Lemma total_setPatch (g : file -> option string) (count : file -> option Z)
                     (files : list file) :
  (forall f, count (setPatch g f) = count f) ->
  total count (map (setPatch g) files) = total count files.
Proof.
  intros H. induction files as [|f rest IH]; [reflexivity|].
  simpl. now rewrite H, IH.
Qed.

End DiffFacts.

Module DiffClaims.

Import JS JSFacts Glob GlobTerms GlobFacts Diff DiffTerms DiffFacts.
Local Open Scope string_scope.

(** C1, as stated, fails: a renamed file whose record carries no patch is
    skipped by the guard on [file.patch === undefined]; no section at all is
    emitted for it. *)
Lemma C1_counterexample :
  let f := mkFile "new.txt" (Some "old.txt") "renamed" None
                  (Some 0%Z) (Some 0%Z) None None in
  status f = "renamed" /\ patch f = None
  /\ section f = ""
  /\ loadDiff (Some [f]) "" = Stats (mkShown "" 1 0 0 "").
Proof. repeat split. Qed.

(** C1, amended: for a record with status [renamed], with the old path
    [previous_filename || filename]: when the patch is absent no section is
    emitted; when the patch is the empty string the section is the header
    naming the old path under a/ and the new path under b/ and the
    rename-from/rename-to lines, without [---]/[+++] lines; when the patch
    is a non-empty string the [---]/[+++] lines follow the rename lines and
    the patch follows them. *)
Theorem C1_renamed_section (f : file) :
  status f = "renamed" ->
  let oldFilename := orElse (previous_filename f) (filename f) in
  let newFilename := filename f in
  match patch f with
  | None => section f = ""
  | Some EmptyString => section f = renameHeader oldFilename newFilename
  | Some p =>
      section f
      = renameHeader oldFilename newFilename
        ++ fromTo oldFilename newFilename ++ p ++ nl
  end.
Proof.
  intros S. unfold section. rewrite S. cbn [String.eqb Ascii.eqb Bool.eqb].
  cbv zeta. destruct (patch f) as [[|c p]|]; cbn [strictEq andb negb].
  - unfold truthy. cbn [falsy negb]. cbv iota.
    unfold renameHeader. now rewrite !append_assoc, !append_nil_r.
  - unfold truthy. cbn [falsy negb orElse]. cbv iota.
    unfold renameHeader, fromTo. now rewrite !append_assoc.
  - reflexivity.
Qed.

Lemma C1_renamed_section_witness :
  section (mkFile "new.txt" (Some "old.txt") "renamed" (Some "@@ -1 +1 @@")
                  (Some 1%Z) (Some 1%Z) None None)
  = renameHeader "old.txt" "new.txt"
    ++ fromTo "old.txt" "new.txt" ++ "@@ -1 +1 @@" ++ nl.
Proof.
  exact (C1_renamed_section
           (mkFile "new.txt" (Some "old.txt") "renamed" (Some "@@ -1 +1 @@")
                   (Some 1%Z) (Some 1%Z) None None) eq_refl).
Defined.

(** C6: the files that pass the filter are found without error, and when
    there are some, the totals shown are the sums of [additions] and
    [deletions] over all of them and the number of files is their number;
    the patches play no part, so the totals are the same whatever files are
    skipped for lacking one. *)
Theorem C6_totals_over_filtered_set
    (files : list file) (pathFilter : string) (g : file -> option string) :
  exists kept,
    filtered (Some files) pathFilter = Ok kept
    /\ (kept <> [] ->
        exists s s',
          loadDiff (Some files) pathFilter = Stats s
          /\ fileCount s = List.length kept
          /\ totalAdditions s = total additions kept
          /\ totalDeletions s = total deletions kept
          /\ loadDiff (Some (map (setPatch g) files)) pathFilter = Stats s'
          /\ fileCount s' = fileCount s
          /\ totalAdditions s' = totalAdditions s
          /\ totalDeletions s' = totalDeletions s).
Proof.
  rewrite filtered_ok. eexists. split; [reflexivity|]. intros N.
  rewrite !loadDiff_eq, filter_setPatch.
  destruct (filter (passes pathFilter) files) as [|k ks]; [contradiction|].
  do 2 eexists. split; [reflexivity|]. cbn [map].
  repeat split.
  - cbn [fileCount]. simpl. now rewrite List.length_map.
  - cbn [totalAdditions].
    now rewrite <- (total_setPatch g additions (k :: ks)).
  - cbn [totalDeletions].
    now rewrite <- (total_setPatch g deletions (k :: ks)).
Qed.

Lemma C6_totals_over_filtered_set_witness :
  exists s s',
    loadDiff (Some threeFiles) "" = Stats s
    /\ fileCount s = 3
    /\ totalAdditions s = 8%Z
    /\ totalDeletions s = 3%Z
    /\ loadDiff (Some (map (setPatch (fun _ => None)) threeFiles)) "" = Stats s'
    /\ fileCount s' = fileCount s
    /\ totalAdditions s' = totalAdditions s
    /\ totalDeletions s' = totalDeletions s.
Proof.
  destruct (C6_totals_over_filtered_set threeFiles "" (fun _ => None))
    as (kept & F & H).
  injection F as <-. apply H. discriminate.
Defined.

(** C7: for every list of files and every path filter the filtering
    succeeds and nothing is thrown, so no error is ever shown; when no file
    passes the filter the page is the "no files match" one, for a set with
    empty diff and zero counts; and an absent [previous_mode], [mode] or
    [patch] gives the default mode and no patch body, or, for a file that
    is neither added nor removed, no section. *)
Theorem C7_no_error_state (files : option (list file)) (pathFilter : string) :
  (exists kept,
      filtered files pathFilter = Ok kept
      /\ (kept = [] ->
          loadDiff files pathFilter = NoFilesMatch
          /\ unifiedDiffOf kept = "" /\ List.length kept = 0
          /\ sumOf additions kept = 0%Z /\ sumOf deletions kept = 0%Z)
      /\ (kept <> [] -> exists s, loadDiff files pathFilter = Stats s))
  /\ (forall e, loadDiff files pathFilter <> ErrorText e)
  /\ (forall name,
        section (mkFile name None "removed" None None None None None)
        = "diff --git a/" ++ name ++ " b/" ++ name ++ nl ++
          "deleted file mode 100644" ++ nl ++
          "--- a/" ++ name ++ nl ++ "+++ /dev/null" ++ nl)
  /\ (forall name,
        section (mkFile name None "added" None None None None None)
        = "diff --git a/" ++ name ++ " b/" ++ name ++ nl ++
          "new file mode 100644" ++ nl ++
          "--- /dev/null" ++ nl ++ "+++ b/" ++ name ++ nl)
  /\ (forall name status,
        String.eqb status "removed" = false ->
        String.eqb status "added" = false ->
        section (mkFile name None status None None None None None) = "").
Proof.
  split; [|split; [|split; [|split]]].
  - rewrite filtered_ok, loadDiff_eq. eexists. split; [reflexivity|].
    split.
    + intros ->. repeat split.
    + intros N. destruct (filter _ _); [contradiction|]. eauto.
  - intros e. rewrite loadDiff_eq. destruct (filter _ _); discriminate.
  - intros name. unfold section. simpl.
    now rewrite !append_assoc, !append_nil_r.
  - intros name. unfold section. simpl.
    now rewrite !append_assoc, !append_nil_r.
  - intros name status R A. unfold section. cbn [patch Diff.status strictEq].
    now rewrite R, A.
Qed.

Lemma C7_no_error_state_witness :
  loadDiff (Some threeFiles) "docs/**" = NoFilesMatch
  /\ loadDiff None "[" = NoFilesMatch
  /\ exists s, loadDiff (Some threeFiles) "*.go" = Stats s.
Proof.
  destruct (C7_no_error_state (Some threeFiles) "docs/**")
    as [(k1 & F1 & E1 & _) _].
  destruct (C7_no_error_state None "[") as [(k2 & F2 & E2 & _) _].
  destruct (C7_no_error_state (Some threeFiles) "*.go")
    as [(k3 & F3 & _ & N3) _].
  split; [|split].
  - apply E1. rewrite filtered_ok in F1. injection F1 as <-. reflexivity.
  - apply E2. rewrite filtered_ok in F2. injection F2 as <-. reflexivity.
  - apply N3. rewrite filtered_ok in F3. injection F3 as <-. discriminate.
Defined.

End DiffClaims.

(* ================================================================= *)
(** ** Shareable URLs *)

Module UrlFacts.

Import JS JSFacts Url UrlTerms.
Local Open Scope string_scope.

(** *** Trimming *)

Lemma pathChar_not_space (c : ascii) :
  isPathChar c = true -> isWhiteSpace c = false.
Proof.
  destruct c as [[] [] [] [] [] [] [] []]; try reflexivity; discriminate.
Qed.

Lemma trimEnd_id (s : string) :
  forallChars (fun c => negb (isWhiteSpace c)) s = true -> trimEnd s = s.
Proof.
  induction s as [|c s IH]; [reflexivity|]. simpl.
  intros H. apply andb_prop in H as [Hc Hs]. rewrite (IH Hs).
  apply negb_true_iff in Hc. rewrite Hc. destruct s; reflexivity.
Qed.

Lemma forallChars_impl (p q : ascii -> bool) (s : string) :
  (forall c, p c = true -> q c = true) ->
  forallChars p s = true -> forallChars q s = true.
Proof.
  intros I. induction s as [|c s IH]; [reflexivity|]. simpl.
  intros H. apply andb_prop in H as [Hc Hs]. now rewrite (I c Hc), IH.
Qed.

Lemma trim_pathChars (s : string) :
  forallChars isPathChar s = true -> trim s = s.
Proof.
  intros H. unfold trim.
  assert (T : trimStart s = s).
  { destruct s as [|c s]; [reflexivity|]. simpl in *.
    apply andb_prop in H as [Hc _]. now rewrite (pathChar_not_space c Hc). }
  rewrite T. apply trimEnd_id. revert H. apply forallChars_impl.
  intros c Hc. now rewrite (pathChar_not_space c Hc).
Qed.

Lemma forallChars_append (p : ascii -> bool) (a b : string) :
  forallChars p (a ++ b) = forallChars p a && forallChars p b.
Proof.
  induction a as [|c a IH]; [reflexivity|]. simpl.
  now rewrite IH, andb_assoc.
Qed.

(** A string of path characters contains no [c] that is not one. *)
Lemma pathChars_exclude (c : ascii) (s : string) :
  isPathChar c = false -> forallChars isPathChar s = true -> includes c s = false.
Proof.
  intros Hc. induction s as [|a s IH]; [reflexivity|]. simpl.
  intros H. apply andb_prop in H as [Ha Hs]. rewrite (IH Hs), orb_false_r.
  destruct (Ascii.eqb a c) eqn:E; [|reflexivity].
  apply Ascii.eqb_eq in E. congruence.
Qed.

(** *** Cutting at a code unit *)

Lemma cutAt_absent (c : ascii) (s : string) :
  includes c s = false -> cutAt c s = (s, None).
Proof.
  induction s as [|a s IH]; [reflexivity|]. intros H.
  apply includes_cons_false in H as [Ha Hs].
  simpl. now rewrite Ha, (IH Hs).
Qed.

Lemma cutAt_first (c : ascii) (p q : string) :
  includes c p = false -> cutAt c (p ++ String c q) = (p, Some q).
Proof.
  induction p as [|a p IH]; intros H.
  - simpl. now rewrite Ascii.eqb_refl.
  - apply includes_cons_false in H as [Ha Hp].
    simpl. now rewrite Ha, (IH Hp).
Qed.

(** *** Splitting on [..] *)

Lemma split_dotdot_absent (s : string) :
  includesStr ".." s = false -> split ".." s = [s].
Proof.
  unfold split. induction s as [|a s IH]; [reflexivity|].
  cbn [includesStr]. intros H. apply orb_false_elim in H as [H1 H2].
  cbn [splitFrom]. rewrite H1, (IH H2). reflexivity.
Qed.

Lemma splitFrom_skip (sep : string) (a : ascii) (s : string) :
  splitFrom sep 1 (String a s) = splitFrom sep 0 s.
Proof. reflexivity. Qed.

(** The first [..] ends the first piece, when the text before it has no
    [..] and does not end with a dot. *)
Lemma split_dotdot_first (p h : string) :
  includesStr ".." p = false -> lastChar p <> Some "."%char ->
  split ".." (p ++ ".." ++ h) = p :: split ".." h.
Proof.
  unfold split. induction p as [|a p IH]; intros H L.
  - reflexivity.
  - cbn [includesStr] in H. apply orb_false_elim in H as [H1 H2].
    assert (L' : lastChar p <> Some "."%char).
    { destruct p; [discriminate|exact L]. }
    specialize (IH H2 L').
    change (String a p ++ ".." ++ h) with (String a (p ++ ".." ++ h)).
    cbn [splitFrom].
    replace (startsWith ".." (String a (p ++ ".." ++ h))) with false.
    + rewrite IH. reflexivity.
    + symmetry. cbn [startsWith]. destruct (Ascii.eqb "." a) eqn:Ea; [|reflexivity].
      apply Ascii.eqb_eq in Ea. subst a. destruct p as [|b p].
      * now contradiction L.
      * cbn [startsWith] in H1. rewrite Ascii.eqb_refl, andb_true_r in H1.
        cbn [andb] in H1. cbn [append startsWith andb]. now rewrite H1.
Qed.

Lemma startsWith_slash (s t : string) (c : ascii) :
  Ascii.eqb "." c = false ->
  startsWith ".." (s ++ String c t) = startsWith ".." s.
Proof.
  intros Hc. destruct s as [|a [|b s]]; cbn [append startsWith].
  - now rewrite Hc.
  - rewrite Hc. cbn [andb]. now rewrite !andb_false_r.
  - reflexivity.
Qed.

(** A separator between two texts without [..] makes none. *)
Lemma includesStr_dotdot_join (a b : string) :
  includesStr ".." a = false -> includesStr ".." b = false ->
  includesStr ".." (a ++ "/" ++ b) = false.
Proof.
  intros Ha Hb. induction a as [|x a IH].
  - simpl append. cbn [includesStr]. now rewrite Hb.
  - cbn [includesStr] in Ha. apply orb_false_elim in Ha as [H1 H2].
    change (String x a ++ "/" ++ b) with (String x (a ++ "/" ++ b)).
    cbn [includesStr]. rewrite (IH H2), orb_false_r.
    change (String x (a ++ "/" ++ b)) with (String x a ++ String "/" b).
    now rewrite startsWith_slash.
Qed.

Lemma lastChar_append (a b : string) :
  b <> "" -> lastChar (a ++ b) = lastChar b.
Proof.
  intros N. induction a as [|x a IH]; [reflexivity|].
  simpl. rewrite IH. destruct (a ++ b) eqn:E; [|reflexivity].
  destruct a; [contradiction|discriminate].
Qed.

(** *** Percent encoding of the filter *)

Lemma encodeURIComponent_cons (c : ascii) (s : string) :
  encodeURIComponent (String c s) = encUnit c ++ encodeURIComponent s.
Proof. reflexivity. Qed.

Lemma encodeQuery_append (a b : string) :
  encodeQuery (a ++ b) = encodeQuery a ++ encodeQuery b.
Proof.
  induction a as [|c a IH]; [reflexivity|].
  cbn [append encodeQuery]. now rewrite IH, append_assoc.
Qed.

(** A code unit comes back from what is written for it, whatever
    follows. *)
Lemma decodeComponent_unit (c : ascii) (rest : string) :
  decodeComponent (encodeQuery (encUnit c) ++ rest)
  = option_map (String c) (decodeComponent rest).
Proof. destruct c as [[] [] [] [] [] [] [] []]; reflexivity. Qed.

Lemma encUnit_no_amp (c : ascii) : includes "&" (encodeQuery (encUnit c)) = false.
Proof. destruct c as [[] [] [] [] [] [] [] []]; reflexivity. Qed.

Lemma encUnit_no_hash (c : ascii) : includes "#" (encUnit c) = false.
Proof. destruct c as [[] [] [] [] [] [] [] []]; reflexivity. Qed.

Lemma encUnit_queryChars (c : ascii) : forallChars isQueryChar (encUnit c) = true.
Proof. destruct c as [[] [] [] [] [] [] [] []]; reflexivity. Qed.

Theorem decode_encode (filter : string) :
  decodeComponent (encodeQuery (encodeURIComponent filter)) = Some filter.
Proof.
  induction filter as [|c f IH]; [reflexivity|].
  rewrite encodeURIComponent_cons, encodeQuery_append, decodeComponent_unit.
  now rewrite IH.
Qed.

Lemma encoded_no_amp (filter : string) :
  includes "&" (encodeQuery (encodeURIComponent filter)) = false.
Proof.
  induction filter as [|c f IH]; [reflexivity|].
  rewrite encodeURIComponent_cons, encodeQuery_append, includes_append.
  now rewrite encUnit_no_amp, IH.
Qed.

Lemma encoded_no_hash (filter : string) :
  includes "#" (encodeURIComponent filter) = false.
Proof.
  induction filter as [|c f IH]; [reflexivity|].
  rewrite encodeURIComponent_cons, includes_append.
  now rewrite encUnit_no_hash, IH.
Qed.

Lemma encoded_queryChars (filter : string) :
  forallChars isQueryChar (encodeURIComponent filter) = true.
Proof.
  induction filter as [|c f IH]; [reflexivity|].
  rewrite encodeURIComponent_cons, forallChars_append.
  now rewrite encUnit_queryChars, IH.
Qed.

(** *** From the form to the URL and back *)

Lemma truthy_not_empty (s : string) : s <> "" -> truthy s = true.
Proof. destruct s; [contradiction|reflexivity]. Qed.

Lemma shareURL_eq (owner name base head filter : string) :
  shareable owner name base head filter ->
  shareURL (mkForm (owner ++ "/" ++ name) base head filter)
  = Some (sharePath owner name base head ++ shareQuery filter).
Proof.
  intros ((No & Po & _) & _ & (Nn & Pn & _) & _ & (Nb & Pb & _) & _
          & (Nh & Ph & _) & _ & Tf).
  unfold shareURL. cbn [repo Url.base Url.head pathFilter].
  assert (Pr : forallChars isPathChar (owner ++ "/" ++ name) = true).
  { rewrite !forallChars_append, Po, Pn. reflexivity. }
  rewrite (trim_pathChars _ Pr), (trim_pathChars _ Pb), (trim_pathChars _ Ph), Tf.
  rewrite (truthy_not_empty base Nb), (truthy_not_empty head Nh).
  replace (truthy (owner ++ "/" ++ name)) with true
    by (destruct owner; [contradiction|reflexivity]).
  cbn [andb]. unfold sharePath, shareQuery.
  destruct (truthy filter); [reflexivity|now rewrite append_nil_r].
Qed.

Lemma endsWithChar_lastChar (c : ascii) (s : string) :
  endsWithChar c s = false -> lastChar s <> Some c.
Proof.
  unfold endsWithChar. destruct (lastChar s) as [a|]; [|discriminate].
  intros E H. inversion H; subst. now rewrite Ascii.eqb_refl in E.
Qed.

Lemma endsWithChar_append (c : ascii) (a b : string) :
  b <> "" -> endsWithChar c (a ++ b) = endsWithChar c b.
Proof. intros N. unfold endsWithChar. now rewrite lastChar_append. Qed.

(** The path that [updateURL] writes is read back by [loadFromURL]. *)
Lemma fromPath_sharePath (owner name base head filter : string)
                         (params : list (string * string)) :
  shareable owner name base head filter ->
  fromPath (sharePath owner name base head) params
  = Some (mkForm (owner ++ "/" ++ name) base head
                 (orElse (get params "filter") "")).
Proof.
  intros ((No & _ & Do) & So & (Nn & _ & Dn) & Sn & (Nb & _ & Db) & Eb
          & (Nh & _ & Dh) & Eh & _).
  set (rb := (owner ++ "/" ++ name) ++ "/" ++ base).
  assert (P : sharePath owner name base head = urlPrefix ++ rb ++ ".." ++ head).
  { unfold sharePath, rb. now rewrite !append_assoc. }
  rewrite P. unfold fromPath.
  assert (Nx : rb ++ ".." ++ head <> "").
  { unfold rb. destruct owner; [contradiction|discriminate]. }
  replace (startsWith urlPrefix (urlPrefix ++ rb ++ ".." ++ head)) with true
    by reflexivity.
  replace (String.length urlPrefix <? String.length (urlPrefix ++ rb ++ ".." ++ head))%nat
    with true.
  2:{ symmetry. apply Nat.ltb_lt. rewrite length_append.
      destruct (rb ++ ".." ++ head); [contradiction|simpl; lia]. }
  cbn [andb].
  replace (sliceFrom (String.length urlPrefix) (urlPrefix ++ rb ++ ".." ++ head))
    with (rb ++ ".." ++ head) by reflexivity.
  assert (Eh' : endsWithChar "/" (rb ++ ".." ++ head) = false).
  { rewrite endsWithChar_append by discriminate.
    now rewrite (endsWithChar_append "/" ".." head Nh). }
  rewrite Eh'.
  assert (Drb : includesStr ".." rb = false).
  { unfold rb. apply includesStr_dotdot_join; [|assumption].
    now apply includesStr_dotdot_join. }
  assert (Lrb : lastChar rb <> Some "."%char).
  { unfold rb. rewrite lastChar_append by discriminate.
    change ("/" ++ base) with (String "/" "" ++ base).
    rewrite (lastChar_append _ base Nb). now apply endsWithChar_lastChar. }
  rewrite (split_dotdot_first rb head Drb Lrb), (split_dotdot_absent head Dh).
  assert (Srb : split "/" rb = owner :: name :: split "/" base).
  { unfold rb. rewrite !append_assoc.
    change (owner ++ "/" ++ name ++ "/" ++ base)
      with (owner ++ String "/" (name ++ String "/" base)).
    now rewrite (split_at_first "/" owner _ So), (split_at_first "/" name _ Sn). }
  rewrite Srb, join_split. reflexivity.
Qed.

Lemma sharePath_pathChars (owner name base head filter : string) :
  shareable owner name base head filter ->
  forallChars isPathChar (sharePath owner name base head) = true.
Proof.
  intros ((_ & Po & _) & _ & (_ & Pn & _) & _ & (_ & Pb & _) & _
          & (_ & Ph & _) & _ & _).
  unfold sharePath. rewrite !forallChars_append, Po, Pn, Pb, Ph. reflexivity.
Qed.

(** The URL parser leaves the URL that [updateURL] writes as it is, but
    for the apostrophes of the query, unless the path has a dot segment. *)
Lemma parseURL_share (owner name base head filter : string) :
  shareable owner name base head filter ->
  parseURL (sharePath owner name base head ++ shareQuery filter)
  = if existsb isDotSegment (split "/" (sharePath owner name base head))
    then None
    else Some (mkLocation (sharePath owner name base head) (searchOf filter)).
Proof.
  intros Sh. pose proof (sharePath_pathChars _ _ _ _ _ Sh) as P.
  set (path := sharePath owner name base head) in *.
  assert (Hh : includes "#" path = false) by (now apply pathChars_exclude).
  assert (Hq : includes "?" path = false) by (now apply pathChars_exclude).
  assert (S1 : startsWith "/" path = true) by reflexivity.
  assert (S2 : startsWith "//" path = false) by reflexivity.
  assert (S3 : startsWith "/\" path = false) by reflexivity.
  unfold parseURL, shareQuery, searchOf. destruct (truthy filter).
  - rewrite cutAt_absent.
    2:{ rewrite includes_append, Hh. cbn [append includes Ascii.eqb].
        simpl. apply encoded_no_hash. }
    change (path ++ "?filter=" ++ encodeURIComponent filter)
      with (path ++ String "?" ("filter=" ++ encodeURIComponent filter)).
    rewrite (cutAt_first "?" path _ Hq), S1, S2, S3, P. cbn [andb negb].
    destruct (existsb isDotSegment (split "/" path)); [reflexivity|].
    cbn [negb append]. cbv iota.
    replace (forallChars isQueryChar
               (String "f" (String "i" (String "l" (String "t" (String "e"
                  (String "r" (String "=" (encodeURIComponent filter)))))))))
      with true; [reflexivity|].
    symmetry. cbn [forallChars]. now rewrite encoded_queryChars.
  - rewrite append_nil_r, (cutAt_absent "#" path Hh), (cutAt_absent "?" path Hq).
    rewrite S1, S2, S3, P. cbn [andb negb].
    destruct (existsb isDotSegment (split "/" path)); reflexivity.
Qed.

Lemma searchParams_share (filter : string) :
  searchParams (searchOf filter)
  = Some (if truthy filter then [("filter", filter)] else []).
Proof.
  unfold searchOf. destruct (truthy filter); [|reflexivity].
  rewrite encodeQuery_append.
  set (e := encodeQuery (encodeURIComponent filter)).
  change ("?" ++ encodeQuery "filter=" ++ e) with (String "?" ("filter=" ++ e)).
  unfold searchParams.
  rewrite (split_absent "&" ("filter=" ++ e)).
  2:{ change (includes "&" ("filter=" ++ e)) with (includes "&" e).
      apply encoded_no_amp. }
  change (decodePairs ["filter=" ++ e])
    with (match decodeComponent "filter", decodeComponent e, decodePairs [] with
          | Some n, Some v, Some l => Some ((n, v) :: l)
          | _, _, _ => None
          end).
  unfold e. rewrite decode_encode. reflexivity.
Qed.

(** *** Trimming twice *)

Lemma trimEnd_idempotent (s : string) : trimEnd (trimEnd s) = trimEnd s.
Proof.
  induction s as [|c s IH]; [reflexivity|]. cbn [trimEnd].
  destruct (trimEnd s) as [|a t] eqn:E.
  - destruct (isWhiteSpace c) eqn:W; [reflexivity|]. cbn [trimEnd]. now rewrite W.
  - change (trimEnd (String c (String a t)))
      with (match trimEnd (String a t) with
            | EmptyString => if isWhiteSpace c then "" else String c ""
            | String x y => String c (String x y)
            end).
    now rewrite IH.
Qed.

Lemma trimEnd_head (c : ascii) (s : string) :
  isWhiteSpace c = false -> trimStart (trimEnd (String c s)) = trimEnd (String c s).
Proof.
  intros W. cbn [trimEnd].
  destruct (trimEnd s); rewrite ?W; cbn [trimStart]; now rewrite W.
Qed.

Lemma trimStart_head (s : string) :
  trimStart s = "" \/ exists c t, trimStart s = String c t /\ isWhiteSpace c = false.
Proof.
  induction s as [|c s IH]; [now left|]. cbn [trimStart].
  destruct (isWhiteSpace c) eqn:W; [exact IH|]. right. now exists c, s.
Qed.

Lemma trim_idempotent (s : string) : trim (trim s) = trim s.
Proof.
  unfold trim. destruct (trimStart_head s) as [E|(c & t & E & W)]; rewrite E.
  - reflexivity.
  - rewrite (trimEnd_head c t W). apply trimEnd_idempotent.
Qed.

Lemma shareable_trimmed (owner name base head filter : string) :
  shareableParts owner name base head ->
  shareable owner name base head (trim filter).
Proof.
  intros (A & B & C & D & E & F & G & H).
  repeat (split; [assumption|]). apply trim_idempotent.
Qed.

Lemma shareURL_filter_trimmed (repo base head filter : string) :
  shareURL (mkForm repo base head (trim filter))
  = shareURL (mkForm repo base head filter).
Proof.
  unfold shareURL. cbn [Url.repo Url.base Url.head pathFilter].
  now rewrite trim_idempotent.
Qed.

End UrlFacts.

Module UrlClaims.

Import JS JSFacts Url UrlTerms UrlFacts.
Local Open Scope string_scope.

(** C8, as stated, fails for some form values.  A head that contains the
    delimiter [..] makes three pieces of the path, and nothing is read
    back.  [fix#12] is a branch name whose [#] starts the fragment of
    the URL that [updateURL] writes, so the head read back is [fix].  And
    a filter with white space before it is written without it, so the
    filter read back is another. *)
Lemma C8_counterexample :
  updateURL (mkForm "o/r" "main" "v1..v2" "") (mkLocation "/gh-dir-diff/" "")
  = Some (mkLocation "/gh-dir-diff/o/r/main..v1..v2" "")
  /\ loadFromURL (mkLocation "/gh-dir-diff/o/r/main..v1..v2" "")
                 (mkForm "" "" "" "")
     = Some (mkForm "" "" "" "")
  /\ updateURL (mkForm "o/r" "main" "fix#12" "") (mkLocation "/gh-dir-diff/" "")
     = Some (mkLocation "/gh-dir-diff/o/r/main..fix" "")
  /\ loadFromURL (mkLocation "/gh-dir-diff/o/r/main..fix" "") (mkForm "" "" "" "")
     = Some (mkForm "o/r" "main" "fix" "")
  /\ updateURL (mkForm "o/r" "main" "dev" " a") (mkLocation "/gh-dir-diff/" "")
     = Some (mkLocation "/gh-dir-diff/o/r/main..dev" "?filter=a")
  /\ loadFromURL (mkLocation "/gh-dir-diff/o/r/main..dev" "?filter=a")
                 (mkForm "" "" "" "")
     = Some (mkForm "o/r" "main" "dev" "a").
Proof. repeat split. Qed.

(** C8, amended: when the repository is [owner/name], and owner, name,
    base and head are non-empty, consist of characters that a URL path keeps
    as they are, and contain no [..], the owner and the name contain no
    [/], the base does not end with a dot nor the head with a slash, and
    no segment of the path is a dot segment, then, whatever the filter,
    [updateURL] writes [/gh-dir-diff/owner/name/base..head], followed by
    [?filter=] and the percent-encoded trimmed filter when that is not
    empty, and [loadFromURL] reads back from it the same repository, base
    and head, and the trimmed filter: the filter itself when it has no
    white space at its ends.  The base is what follows the second segment,
    rejoined. *)
Theorem C8_url_round_trip
    (owner name base head filter : string) (loc : location) (f0 : form) :
  shareableParts owner name base head ->
  existsb isDotSegment (split "/" (sharePath owner name base head)) = false ->
  let form := mkForm (owner ++ "/" ++ name) base head filter in
  let written :=
    mkLocation (sharePath owner name base head) (searchOf (trim filter)) in
  shareURL form
  = Some (sharePath owner name base head ++ shareQuery (trim filter))
  /\ updateURL form loc = Some written
  /\ loadFromURL written f0
     = Some (mkForm (owner ++ "/" ++ name) base head (trim filter))
  /\ (trim filter = filter -> loadFromURL written f0 = Some form).
Proof.
  intros Parts Dot form written.
  pose proof (shareable_trimmed _ _ _ _ filter Parts) as Sh.
  pose proof (shareURL_eq _ _ _ _ _ Sh) as E.
  rewrite shareURL_filter_trimmed in E. fold form in E.
  assert (L : loadFromURL written f0
              = Some (mkForm (owner ++ "/" ++ name) base head (trim filter))).
  { unfold loadFromURL, written. cbn [search pathname].
    rewrite searchParams_share, (fromPath_sharePath _ _ _ _ _ _ Sh).
    do 2 f_equal. destruct (trim filter); reflexivity. }
  split; [exact E|]. split; [|split].
  - unfold updateURL.
    now rewrite E, (parseURL_share _ _ _ _ _ Sh), Dot.
  - exact L.
  - intros T. rewrite L. unfold form. now rewrite T.
Qed.

Lemma C8_url_round_trip_witness :
  shareURL (mkForm "o/r" "main" "feat/x" "**/*.ts")
  = Some "/gh-dir-diff/o/r/main..feat/x?filter=**%2F*.ts"
  /\ updateURL (mkForm "o/r" "main" "feat/x" "**/*.ts") (mkLocation "/" "")
     = Some (mkLocation "/gh-dir-diff/o/r/main..feat/x" "?filter=**%2F*.ts")
  /\ loadFromURL (mkLocation "/gh-dir-diff/o/r/main..feat/x" "?filter=**%2F*.ts")
                 (mkForm "" "" "" "")
     = Some (mkForm "o/r" "main" "feat/x" "**/*.ts").
Proof.
  destruct (C8_url_round_trip "o" "r" "main" "feat/x" "**/*.ts"
              (mkLocation "/" "") (mkForm "" "" "" "")) as (A & B & C & D).
  - repeat split; (reflexivity || discriminate).
  - reflexivity.
  - split; [exact A|]. split; [exact B|]. apply D. reflexivity.
Defined.

End UrlClaims.

(* ================================================================= *)
(** ** The signed state token, further properties *)

Module OAuthMore.

Import JS JSFacts OAuth TokenTerms OAuthFacts TokenMore.
Local Open Scope string_scope.

Lemma hexByte_lower (b : byte) (s : string) :
  String.length (Crypto.hexByte b ++ s) = S (S (String.length s))
  /\ forallChars isLowerHex (Crypto.hexByte b ++ s) = forallChars isLowerHex s.
Proof. destruct b; split; reflexivity. Qed.

Lemma hex_lower (bs : list byte) :
  String.length (Crypto.hex bs) = 2 * List.length bs
  /\ forallChars isLowerHex (Crypto.hex bs) = true.
Proof.
  induction bs as [|b bs [IHl IHc]]; [split; reflexivity|].
  cbn [Crypto.hex List.length].
  destruct (hexByte_lower b (Crypto.hex bs)) as [L C].
  rewrite L, C, IHl. split; [lia|exact IHc].
Qed.

(** X1: with a non-empty secret, [signState] gives the state, a dot, and 64
    lower-case hexadecimal digits. *)
Theorem signState_format (state secret : string) :
  secret <> "" ->
  exists sig,
    signState state secret = Ok (state ++ "." ++ sig)
    /\ String.length sig = 64
    /\ forallChars isLowerHex sig = true.
Proof.
  intros K. exists (sigHex secret state).
  split; [now apply signState_ok|].
  destruct (hex_lower (tag secret state)) as [L C].
  unfold sigHex. rewrite L, C. split; [|reflexivity].
  unfold tag, Crypto.hmac. now rewrite sha256_length.
Qed.

Lemma signState_format_witness :
  exists sig,
    signState "1000-a" "k" = Ok ("1000-a" ++ "." ++ sig)
    /\ String.length sig = 64
    /\ forallChars isLowerHex sig = true.
Proof. apply (signState_format "1000-a" "k"). discriminate. Defined.

(** X2: a token without the delimiter is invalid, whatever the secret and
    the time; nothing is signed and nothing is thrown, also for the empty
    secret. *)
Theorem verifyState_no_delimiter (token secret : string) (now : Z) :
  includes "." token = false ->
  verifyState token secret now = Ok None.
Proof.
  intros D. unfold verifyState. rewrite (split_absent "." token D).
  cbn [at_ nth_error falsy]. now rewrite orb_true_r.
Qed.

Lemma verifyState_no_delimiter_witness :
  verifyState "1000-abc" "" 0 = Ok None.
Proof. apply (verifyState_no_delimiter "1000-abc" "" 0). reflexivity. Defined.

(** X3: the token of a state without the delimiter, whose leading segment
    reads as the timestamp [t], is accepted up to and including 10 minutes
    after [t] and refused from the next millisecond on. *)
Theorem expiry_boundary (state secret : string) (t now : Z) :
  includes "." state = false ->
  timestampOf state = Num t ->
  secret <> "" ->
  ((now - t <= 600000)%Z ->
   signThenVerify state secret secret now = Ok (Some state))
  /\ ((600000 < now - t)%Z ->
      signThenVerify state secret secret now = Ok None).
Proof.
  intros D T K. pose proof (timestamp_not_empty _ _ T) as S.
  rewrite signThenVerify_plain by assumption.
  rewrite String.eqb_refl, T. split; intros H; now expired.
Qed.

Lemma expiry_boundary_witness :
  signThenVerify "1000-a" "k" "k" 601000 = Ok (Some "1000-a")
  /\ signThenVerify "1000-a" "k" "k" 601001 = Ok None.
Proof.
  destruct (expiry_boundary "1000-a" "k" 1000 601000) as [A _];
    [reflexivity|reflexivity|discriminate|].
  destruct (expiry_boundary "1000-a" "k" 1000 601001) as [_ B];
    [reflexivity|reflexivity|discriminate|].
  split; [apply A; lia|apply B; lia].
Defined.

(** X4: whatever [verifyState] accepts is the first piece of the token,
    not empty, followed by the HMAC of that piece under the secret; and
    when its leading segment reads as a timestamp [t], no more than 10
    minutes have passed since [t].  A state without a readable timestamp
    is accepted at any time. *)
Theorem verifyState_sound (token secret s : string) (now : Z) :
  verifyState token secret now = Ok (Some s) ->
  s <> ""
  /\ at_ (split "." token) 0 = Some s
  /\ at_ (split "." token) 1 = Some (sigHex secret s)
  /\ forall t, timestampOf s = Num t -> (now - t <= 10 * 60 * 1000)%Z.
Proof.
  unfold verifyState.
  destruct (at_ (split "." token) 0) as [[|c state]|] eqn:E0;
    try (simpl; discriminate).
  destruct (at_ (split "." token) 1) as [[|d sig]|] eqn:E1;
    try (simpl; discriminate).
  cbn [falsy orb]. cbv iota.
  change (orElse (Some (String c state)) "") with (String c state).
  assert (N : String c state <> "") by discriminate.
  remember (String c state) as st eqn:Est.
  destruct secret as [|k secret]; [discriminate|].
  rewrite signState_ok by discriminate. cbn [bind].
  assert (D : includes "." st = false).
  { pose proof (split_pieces "." token) as F.
    destruct (split "." token) as [|x l]; [discriminate|].
    simpl in E0. inversion E0; subst x. now inversion F. }
  rewrite (split_token st _ D (sigHex_no_dot (String k secret) st)).
  fold (timestampOf st).
  change (at_ [st; sigHex (String k secret) st] 1)
    with (Some (sigHex (String k secret) st)).
  unfold strictEq.
  destruct (String.eqb (String d sig) (sigHex (String k secret) st)) eqn:Q;
    cbn [negb]; cbv iota; [|discriminate].
  destruct (subGt now (timestampOf st) expiry) eqn:X; [discriminate|].
  intros H. inversion H; subst s. apply String.eqb_eq in Q.
  repeat split; try assumption; try congruence.
  intros t T. rewrite T in X. unfold subGt, expiry in X.
  apply Z.ltb_ge in X. lia.
Qed.

Lemma verifyState_sound_witness :
  "1000-a" <> ""
  /\ at_ (split "." ("1000-a." ++ sigHex "k" "1000-a")) 0 = Some "1000-a"
  /\ at_ (split "." ("1000-a." ++ sigHex "k" "1000-a")) 1
     = Some (sigHex "k" "1000-a")
  /\ forall t, timestampOf "1000-a" = Num t -> (601000 - t <= 10 * 60 * 1000)%Z.
Proof.
  apply (verifyState_sound ("1000-a." ++ sigHex "k" "1000-a") "k" "1000-a" 601000).
  vm_compute. reflexivity.
Defined.

Lemma subGt_later (now now' c : Z) (ts : number) :
  (now <= now')%Z -> subGt now ts c = true -> subGt now' ts c = true.
Proof.
  destruct ts as [|t]; [discriminate|]. simpl. intros L H.
  apply Z.ltb_lt in H. apply Z.ltb_lt. lia.
Qed.

(** X5: a token that is invalid at some time is invalid at every later
    time. *)
Theorem verifyState_stays_invalid (token secret : string) (now now' : Z) :
  (now <= now')%Z ->
  verifyState token secret now = Ok None ->
  verifyState token secret now' = Ok None.
Proof.
  intros L. unfold verifyState.
  destruct (falsy (at_ (split "." token) 0) || falsy (at_ (split "." token) 1));
    [reflexivity|].
  destruct (signState _ secret) as [x|e]; simpl bind; [|discriminate].
  destruct (negb _); [reflexivity|].
  destruct (subGt now _ expiry) eqn:X; [|discriminate].
  intros _. now rewrite (subGt_later now now' _ _ L X).
Qed.

Lemma verifyState_stays_invalid_witness :
  verifyState
    "1000-a.9a6c9c65cdd1b70114b47c3e6c81eba74d2671c0c6425d887331554f2a5feeb8"
    "k" 700000 = Ok None.
Proof.
  apply (verifyState_stays_invalid _ "k" 601001 700000); [lia|].
  vm_compute. reflexivity.
Defined.

(** X6: what follows a second delimiter is not looked at: a token that
    contains the delimiter is verified like the same token with a dot and
    anything appended. *)
Theorem verifyState_ignores_tail (token junk secret : string) (now : Z) :
  includes "." token = true ->
  verifyState (token ++ "." ++ junk) secret now = verifyState token secret now.
Proof.
  intros D. destruct (includes_cut _ _ D) as (p & q & -> & Hp).
  unfold verifyState.
  change ((p ++ String "." q) ++ "." ++ junk)
    with ((p ++ String "." q) ++ String "." junk).
  rewrite (split_append "." (p ++ String "." q) junk).
  rewrite (split_at_first "." p q Hp).
  pose proof (split_not_nil "." q) as N.
  destruct (split "." q) as [|g rest]; [contradiction|]. reflexivity.
Qed.

Lemma verifyState_ignores_tail_witness :
  verifyState
    ("1000-a.9a6c9c65cdd1b70114b47c3e6c81eba74d2671c0c6425d887331554f2a5feeb8"
     ++ "." ++ "anything") "k" 1000
  = verifyState
      "1000-a.9a6c9c65cdd1b70114b47c3e6c81eba74d2671c0c6425d887331554f2a5feeb8"
      "k" 1000.
Proof. apply verifyState_ignores_tail. reflexivity. Defined.

End OAuthMore.

(* ================================================================= *)
(** ** The worker's handler *)

Module WorkerFacts.

Import JS JSFacts OAuth TokenTerms OAuthFacts TokenMore OAuthMore.
Import UrlFacts Worker WorkerTerms.
Local Open Scope string_scope.

(** *** Decimal digits *)

Lemma digitChar_value (d : Z) :
  (0 <= d < 10)%Z ->
  digitValue 10 (digitChar d) = Some d /\ isDecDigit (digitChar d) = true.
Proof.
  intros H.
  assert (E : (d = 0 \/ d = 1 \/ d = 2 \/ d = 3 \/ d = 4 \/ d = 5 \/ d = 6
               \/ d = 7 \/ d = 8 \/ d = 9)%Z) by lia.
  repeat (destruct E as [->|E]; [split; reflexivity|]). subst. split; reflexivity.
Qed.



Lemma digitsFrom_digits (fuel : nat) :
  forall (n : Z) (acc : string),
    (0 <= n)%Z -> forallChars isDecDigit acc = true ->
    forallChars isDecDigit (digitsFrom fuel n acc) = true.
Proof.
  induction fuel as [|fuel IH]; intros n acc N A; [exact A|].
  cbn [digitsFrom].
  assert (A' : forallChars isDecDigit (String (digitChar (n mod 10)) acc) = true).
  { cbn [forallChars].
    destruct (digitChar_value (n mod 10)) as [_ ->];
      [apply Z.mod_pos_bound; lia|exact A]. }
  destruct (n <? 10)%Z; [exact A'|].
  apply IH; [apply Z.div_pos; lia|exact A'].
Qed.

Lemma decDigit_facts (c : ascii) :
  isDecDigit c = true ->
  isWhiteSpace c = false /\ Ascii.eqb c "-" = false /\ Ascii.eqb c "+" = false
  /\ Ascii.eqb c "x" = false /\ Ascii.eqb c "X" = false
  /\ Ascii.eqb c "." = false /\ isPlainChar c = true.
Proof.
  destruct c as [[] [] [] [] [] [] [] []]; try discriminate; repeat split.
Qed.



Lemma numberToString_digits (n : Z) :
  (0 <= n)%Z -> forallChars isDecDigit (numberToString n) = true.
Proof.
  intros N. unfold numberToString.
  replace (n <? 0)%Z with false by (symmetry; apply Z.ltb_ge; lia).
  now apply digitsFrom_digits.
Qed.




(** *** Cookies *)

Lemma trim_noSpace (s : string) : noSpace s = true -> trim s = s.
Proof.
  intros H. unfold trim.
  assert (T : trimStart s = s).
  { destruct s as [|c s]; [reflexivity|]. unfold noSpace in H. simpl in H.
    apply andb_prop in H as [Hc _]. apply negb_true_iff in Hc.
    simpl. now rewrite Hc. }
  rewrite T. now apply trimEnd_id.
Qed.

Lemma trim_leading_space (s : string) : trim (String " " s) = trim s.
Proof. reflexivity. Qed.

Lemma cookieEntry_pair (k v : string) :
  includes "=" k = false -> noSpace (k ++ "=" ++ v) = true ->
  cookieEntry (k ++ "=" ++ v) = (k, v).
Proof.
  intros K S. unfold cookieEntry. rewrite (trim_noSpace _ S).
  change (k ++ "=" ++ v) with (k ++ String "=" v).
  now rewrite (split_at_first "=" k v K), join_split.
Qed.

Lemma property_last (l : list (string * string)) (k v : string) :
  property (l ++ [(k, v)]) k = Some v.
Proof.
  unfold property. rewrite fold_left_app. cbn [fold_left fst snd].
  now rewrite String.eqb_refl.
Qed.

Lemma cookie_alone (k v : string) :
  includes "=" k = false ->
  includes ";" (k ++ "=" ++ v) = false ->
  noSpace (k ++ "=" ++ v) = true ->
  parseCookies (k ++ "=" ++ v) = [(k, v)].
Proof.
  intros K C S. unfold parseCookies.
  rewrite (split_absent ";" _ C). cbn [map]. now rewrite cookieEntry_pair.
Qed.

Lemma cookie_after (h k v : string) :
  includes "=" k = false ->
  includes ";" (k ++ "=" ++ v) = false ->
  noSpace (k ++ "=" ++ v) = true ->
  exists before, parseCookies (h ++ "; " ++ k ++ "=" ++ v) = (before ++ [(k, v)])%list.
Proof.
  intros K C S. unfold parseCookies.
  change (h ++ "; " ++ k ++ "=" ++ v) with (h ++ String ";" (String " " (k ++ "=" ++ v))).
  rewrite split_append, map_app.
  rewrite (split_absent ";" (String " " (k ++ "=" ++ v))) by exact C.
  cbn [map]. unfold cookieEntry at 2. rewrite trim_leading_space.
  fold (cookieEntry (k ++ "=" ++ v)). rewrite cookieEntry_pair by assumption.
  eauto.
Qed.

(** *** Characters of a signed state *)

Lemma plain_of_digit (c : ascii) : isDecDigit c = true -> isPlainChar c = true.
Proof. intros H. now destruct (decDigit_facts c H) as (_ & _ & _ & _ & _ & _ & P). Qed.


Lemma uuid_of_digit (c : ascii) : isDecDigit c = true -> isUuidChar c = true.
Proof. destruct c as [[] [] [] [] [] [] [] []]; try discriminate; reflexivity. Qed.



Lemma forall_exclude (p : ascii -> bool) (c : ascii) (s : string) :
  (forall a, p a = true -> Ascii.eqb a c = false) ->
  forallChars p s = true -> includes c s = false.
Proof.
  intros I. induction s as [|a s IH]; [reflexivity|]. simpl.
  intros H. apply andb_prop in H as [Ha Hs]. now rewrite (I a Ha), (IH Hs).
Qed.

Lemma loginState_uuidChars (now : Z) (uuid : string) :
  (0 <= now)%Z -> forallChars isUuidChar uuid = true ->
  forallChars isUuidChar (loginState now uuid) = true.
Proof.
  intros N U. unfold loginState. rewrite !forallChars_append, U.
  rewrite (forallChars_impl isDecDigit isUuidChar _ uuid_of_digit
             (numberToString_digits now N)).
  reflexivity.
Qed.





Lemma formBytes_uuidChar (c : ascii) (l : list byte) :
  isUuidChar c = true ->
  formBytes (Encoding.utf8Unit c ++ l) = String c (formBytes l).
Proof.
  destruct c as [[] [] [] [] [] [] [] []]; intros H;
    try discriminate H; reflexivity.
Qed.

Lemma formEncode_uuidChars (s : string) :
  forallChars isUuidChar s = true -> formEncode s = s.
Proof.
  unfold formEncode. induction s as [|c s IH]; [reflexivity|].
  simpl. intros H. apply andb_prop in H as [Hc Hs].
  now rewrite (formBytes_uuidChar c _ Hc), (IH Hs).
Qed.

(** [Response.redirect] with status 302. *)
Lemma redirect_302 (w : world) (url : string) (init : list (string * string)) :
  redirect w url 302 init
  = match urlParser w url with
    | Some location => Ok (Redirect url 302 [("Location", location)])
    | None => Throw TypeError
    end.
Proof. unfold redirect. now destruct (urlParser w url). Qed.

Lemma redirect_returns (w : world) (url : string)
                       (init : list (string * string)) (r : response) :
  redirect w url 302 init = Ok r ->
  exists location,
    urlParser w url = Some location
    /\ r = Redirect url 302 [("Location", location)].
Proof.
  rewrite redirect_302. destruct (urlParser w url) as [location|];
    [|discriminate].
  intros H. injection H as <-. now exists location.
Qed.

End WorkerFacts.

Module WorkerMore.

Import JS JSFacts OAuth TokenTerms OAuthFacts TokenMore OAuthMore.
Import UrlFacts Worker WorkerTerms WorkerFacts.
Local Open Scope string_scope.

(** X7: a cookie [k=v] is read with its value whole, also when the value
    contains [=]; and when it is the last cookie of the header it is the one
    that is read, whatever the header has before it. *)
Theorem cookie_lookup (h k v : string) :
  includes "=" k = false ->
  includes ";" (k ++ "=" ++ v) = false ->
  noSpace (k ++ "=" ++ v) = true ->
  property (parseCookies (k ++ "=" ++ v)) k = Some v
  /\ property (parseCookies (h ++ "; " ++ k ++ "=" ++ v)) k = Some v.
Proof.
  intros K C S. split.
  - rewrite cookie_alone by assumption. cbn. now rewrite String.eqb_refl.
  - destruct (cookie_after h k v K C S) as (before & ->). apply property_last.
Qed.

Lemma cookie_lookup_witness :
  property (parseCookies ("oauth_state" ++ "=" ++ "x=y.z")) "oauth_state"
  = Some "x=y.z"
  /\ property (parseCookies ("a=1; oauth_state=old" ++ "; "
                              ++ "oauth_state" ++ "=" ++ "x=y.z"))
              "oauth_state"
     = Some "x=y.z".
Proof.
  apply (cookie_lookup "a=1; oauth_state=old" "oauth_state" "x=y.z");
    reflexivity.
Defined.

(** X8: [/callback] redirects to the frontend only with a token that the
    token endpoint gave for the [code] of the request, and only when the
    [oauth_state] cookie is verified under the secret and the state it
    carries is the [state] parameter of the request. *)
Theorem callback_sound (req : request) (e : env) (w : world)
                       (url : string) (status : Z) (hs : list (string * string)) :
  String.eqb (method req) "OPTIONS" = false ->
  pathname req = "/callback" ->
  fetch req e w = Ok (Redirect url status hs) ->
  exists code state signed token td,
    Url.get (searchParams req) "code" = Some code
    /\ Url.get (searchParams req) "state" = Some state
    /\ property (parseCookies (orElse (cookieHeader req) "")) "oauth_state"
       = Some signed
    /\ verifyState signed (CSRF_SECRET e) (now w) = Ok (Some state)
    /\ fetchToken w (mkTokenRequest (GITHUB_CLIENT_ID e) (GITHUB_CLIENT_SECRET e) code)
       = Ok td
    /\ access_token td = Some token
    /\ token <> ""
    /\ url = FRONTEND_URL e ++ "/#access_token=" ++ token.
Proof.
  intros Hm Hp H. unfold fetch in H. rewrite Hm, Hp in H.
  change (String.eqb "/callback" "/login") with false in H.
  change (String.eqb "/callback" "/callback") with true in H.
  cbv iota in H. unfold callback in H.
  destruct (Url.get (searchParams req) "code") as [[|c0 code]|];
    try discriminate H.
  destruct (Url.get (searchParams req) "state") as [[|s0 state]|];
    try discriminate H.
  cbn [falsy orb] in H. cbv iota in H.
  destruct (property _ "oauth_state") as [[|g0 signed]|];
    try discriminate H.
  cbn [falsy] in H. cbv iota in H.
  change (orElse (Some (String g0 signed)) "") with (String g0 signed) in H.
  destruct (verifyState (String g0 signed) (CSRF_SECRET e) (now w))
    as [[[|v0 v]|]|err] eqn:V; cbn [bind falsy orb] in H;
    try discriminate H.
  cbv iota in H. unfold strictEq in H.
  destruct (String.eqb (String v0 v) (String s0 state)) eqn:Q;
    cbn [negb] in H; cbv iota in H; [|discriminate H].
  apply String.eqb_eq in Q. rewrite Q in V.
  change (orElse (Some (String c0 code)) "") with (String c0 code) in H.
  destruct (fetchToken w _) as [td|err] eqn:F; cbn [bind] in H;
    [|discriminate H].
  destruct (error td) as [[|e0 er]|]; cbn [falsy negb orb] in H;
    try discriminate H.
  - destruct (access_token td) as [[|t0 tok]|] eqn:A; cbn [falsy] in H;
      try discriminate H.
    cbv iota in H. apply redirect_returns in H as (location & _ & H).
    inversion H; subst.
    exists (String c0 code), (String s0 state), (String g0 signed),
           (String t0 tok), td.
    repeat split; try assumption; try reflexivity; discriminate.
  - destruct (access_token td) as [[|t0 tok]|] eqn:A; cbn [falsy] in H;
      try discriminate H.
    cbv iota in H. apply redirect_returns in H as (location & _ & H).
    inversion H; subst.
    exists (String c0 code), (String s0 state), (String g0 signed),
           (String t0 tok), td.
    repeat split; try assumption; try reflexivity; discriminate.
Qed.

Lemma callback_sound_witness :
  exists code state signed token td,
    Url.get [("code", "c0de"); ("state", "5-ab-1")] "code" = Some code
    /\ Url.get [("code", "c0de"); ("state", "5-ab-1")] "state" = Some state
    /\ property
         (parseCookies
            (orElse (Some ("a=1; oauth_state=" ++ signedOf "k" "5-ab-1")) ""))
         "oauth_state"
       = Some signed
    /\ verifyState signed "k" 77 = Ok (Some state)
    /\ Ok (mkTokenData (Some "gho_1") None None) = Ok td
    /\ access_token td = Some token
    /\ token <> ""
    /\ "https://f.example/#access_token=gho_1"
       = "https://f.example" ++ "/#access_token=" ++ token.
Proof.
  apply (callback_sound
           (mkRequest "GET" "/callback" "https://w.example"
                      [("code", "c0de"); ("state", "5-ab-1")]
                      (Some ("a=1; oauth_state=" ++ signedOf "k" "5-ab-1")))
           (mkEnv "id" "cs" "https://f.example" "k")
           (mkWorld 77 "ff" (fun _ => Ok (mkTokenData (Some "gho_1") None None))
                    Some)
           "https://f.example/#access_token=gho_1" 302
           [("Location", "https://f.example/#access_token=gho_1")]).
  - reflexivity.
  - reflexivity.
  - vm_compute. reflexivity.
Defined.

(** X9: [/login] sets no cookie.  With a secret that is not empty and an
    authorize URL that the platform parses, its answer is the redirect to
    the authorize URL of the state [<now>-<uuid>] with status 302 and one
    header, [Location]; the [Set-Cookie] header with the signed state is
    handed to [Response.redirect] as a third argument and is not part of
    the response.  With an empty secret the key import rejects, and with
    an authorize URL that does not parse the redirect does. *)
Theorem login_response (req : request) (e : env) (w : world) :
  String.eqb (method req) "OPTIONS" = false ->
  pathname req = "/login" ->
  let url := authorizeURL e req (loginState (now w) (randomUUID w)) in
  fetch req e w
  = (if String.eqb (CSRF_SECRET e) "" then Throw DataError
     else match urlParser w url with
          | Some location => Ok (Redirect url 302 [("Location", location)])
          | None => Throw TypeError
          end)
  /\ forall r, fetch req e w = Ok r ->
               forall name value, In (name, value) (headersOf r) ->
                                  name = "Location".
Proof.
  intros Hm Hp url.
  assert (E : fetch req e w
              = if String.eqb (CSRF_SECRET e) "" then Throw DataError
                else match urlParser w url with
                     | Some location =>
                         Ok (Redirect url 302 [("Location", location)])
                     | None => Throw TypeError
                     end).
  { unfold fetch. rewrite Hm, Hp.
    change (String.eqb "/login" "/login") with true. cbv iota.
    unfold login. fold (loginState (now w) (randomUUID w)). fold url.
    destruct (String.eqb (CSRF_SECRET e) "") eqn:K.
    - apply String.eqb_eq in K. rewrite K.
      now rewrite signState_empty_secret.
    - apply String.eqb_neq in K. rewrite (signState_ok _ _ K). cbn [bind].
      apply redirect_302. }
  split; [exact E|]. rewrite E. intros r H name value I.
  destruct (String.eqb (CSRF_SECRET e) ""); [discriminate H|].
  destruct (urlParser w url) as [location|]; [|discriminate H].
  injection H as <-. cbn [headersOf] in I.
  destruct I as [I|[]]. now inversion I.
Qed.

Lemma login_response_witness :
  fetch (mkRequest "GET" "/login" "https://w.example" [] None)
        (mkEnv "id" "cs" "https://f.example" "k")
        (mkWorld 5 "ab-1" (fun _ => Throw DataError) Some)
  = Ok (Redirect
          ("https://github.com/login/oauth/authorize?client_id=id"
           ++ "&redirect_uri=https%3A%2F%2Fw.example%2Fcallback"
           ++ "&scope=repo&state=5-ab-1")
          302
          [("Location",
            "https://github.com/login/oauth/authorize?client_id=id"
            ++ "&redirect_uri=https%3A%2F%2Fw.example%2Fcallback"
            ++ "&scope=repo&state=5-ab-1")]).
Proof.
  exact (proj1 (login_response
                  (mkRequest "GET" "/login" "https://w.example" [] None)
                  (mkEnv "id" "cs" "https://f.example" "k")
                  (mkWorld 5 "ab-1" (fun _ => Throw DataError) Some)
                  eq_refl eq_refl)).
Defined.

(** X12: the authorize URL that [/login] redirects to carries the state
    as it is signed in the cookie, letter for letter, as its last
    parameter, after the client id, the callback address and the scope. *)
Theorem authorizeURL_state (req : request) (e : env) (now : Z) (uuid : string) :
  (0 <= now)%Z ->
  forallChars isUuidChar uuid = true ->
  authorizeURL e req (loginState now uuid)
  = "https://github.com/login/oauth/authorize?client_id="
    ++ formEncode (GITHUB_CLIENT_ID e)
    ++ "&redirect_uri=" ++ formEncode (origin req ++ "/callback")
    ++ "&scope=repo&state=" ++ loginState now uuid.
Proof.
  intros N U. unfold authorizeURL. cbn [formSerialize].
  rewrite (formEncode_uuidChars _ (loginState_uuidChars now uuid N U)).
  change (formEncode "client_id") with "client_id".
  change (formEncode "redirect_uri") with "redirect_uri".
  change (formEncode "scope") with "scope".
  change (formEncode "repo") with "repo".
  change (formEncode "state") with "state".
  cbn [append]. reflexivity.
Qed.

Lemma authorizeURL_state_witness :
  authorizeURL (mkEnv "id" "cs" "https://f.example" "k")
               (mkRequest "GET" "/login" "https://w.example" [] None)
               (loginState 1700000000000 "3f2a-00ff")
  = "https://github.com/login/oauth/authorize?client_id=id"
    ++ "&redirect_uri=https%3A%2F%2Fw.example%2Fcallback"
    ++ "&scope=repo&state=1700000000000-3f2a-00ff".
Proof.
  refine (authorizeURL_state
            (mkRequest "GET" "/login" "https://w.example" [] None)
            (mkEnv "id" "cs" "https://f.example" "k")
            1700000000000 "3f2a-00ff" _ _); [lia|reflexivity].
Defined.



(** X11: a [/callback] request that is refused for its parameters, its
    cookie or its state is refused before the token endpoint is asked: the
    answer is the same whatever the token endpoint would do with the code. *)
Theorem refusal_before_exchange (req : request) (e : env) (w : world)
                                (f : tokenRequest -> outcome tokenData)
                                (msg : string) (hs : list (string * string)) :
  String.eqb (method req) "OPTIONS" = false ->
  pathname req = "/callback" ->
  msg = "Missing code or state parameter"
  \/ msg = "Missing state cookie"
  \/ msg = "Invalid or expired state" ->
  fetch req e w = Ok (Plain (Some msg) 400 hs) ->
  fetch req e (mkWorld (now w) (randomUUID w) f (urlParser w))
  = Ok (Plain (Some msg) 400 hs).
Proof.
  intros Hm Hp M. unfold fetch. rewrite Hm, Hp.
  change (String.eqb "/callback" "/login") with false.
  change (String.eqb "/callback" "/callback") with true.
  cbv iota. unfold callback. cbn [now fetchToken].
  destruct (falsy (Url.get (searchParams req) "code")
            || falsy (Url.get (searchParams req) "state")); [trivial|].
  destruct (falsy (property _ "oauth_state")); [trivial|].
  destruct (verifyState _ (CSRF_SECRET e) (now w)) as [v|err];
    cbn [bind]; [|trivial].
  destruct (falsy v || negb (strictEq v (Url.get (searchParams req) "state")));
    [trivial|].
  intros H. exfalso.
  destruct (fetchToken w _) as [td|err]; cbn [bind] in H; [|discriminate H].
  destruct (negb (falsy (error td)) || falsy (access_token td)).
  2:{ apply redirect_returns in H as (location & _ & H). discriminate H. }
  injection H as H _. rewrite <- H in M. simpl in M.
  destruct M as [M|[M|M]]; discriminate M.
Qed.

Lemma refusal_before_exchange_witness :
  fetch (mkRequest "GET" "/callback" "https://w.example"
                   [("code", "c0de"); ("state", "5-ab-1")] None)
        (mkEnv "id" "cs" "https://f.example" "k")
        (mkWorld 7 "ff" (fun _ => Ok (mkTokenData (Some "gho_1") None None))
                 Some)
  = Ok (Plain (Some "Missing state cookie") 400 []).
Proof.
  apply (refusal_before_exchange
           (mkRequest "GET" "/callback" "https://w.example"
                      [("code", "c0de"); ("state", "5-ab-1")] None)
           (mkEnv "id" "cs" "https://f.example" "k")
           (mkWorld 7 "ff" (fun _ => Throw DataError) Some)
           (fun _ => Ok (mkTokenData (Some "gho_1") None None))
           "Missing state cookie" []);
    try reflexivity.
  right. left. reflexivity.
Defined.

End WorkerMore.

Module GlobMore.

Import JS JSFacts RegExp Glob GlobTerms GlobFacts GlobMoreTerms.
Local Open Scope string_scope.

Lemma matchesAt_agrees (p s : string) (b : bool) :
  includes "*" p = false ->
  matchesAt (seqOf (segmentTerms p ++ [Eol])) (b, s) = agrees p s.
Proof.
  revert s b. induction p as [|c p IH]; intros s b H1.
  - destruct s; reflexivity.
  - apply includes_cons_false in H1 as [C1 H1].
    cbn [segmentTerms app seqOf fold_right]. unfold charTerm. rewrite C1.
    fold (seqOf (segmentTerms p ++ [Eol])).
    unfold matchesAt. cbn [agrees].
    destruct (Ascii.eqb c "?"); cbn [ends snd];
      (destruct s as [|a s]; [reflexivity|]).
    + unfold notSlash. cbn [inSet existsb xorb]. rewrite orb_false_r.
      destruct (Ascii.eqb a "/"); [reflexivity|].
      cbn [negb flat_map andb]. rewrite app_nil_r. apply (IH s false H1).
    + cbn [inSet]. destruct (Ascii.eqb c a); [|reflexivity].
      cbn [flat_map andb]. rewrite app_nil_r. apply (IH s false H1).
Qed.

Lemma agrees_length (p s : string) :
  agrees p s = true -> String.length s = String.length p.
Proof.
  revert s. induction p as [|c p IH]; intros [|a s] H; try discriminate H.
  - reflexivity.
  - cbn [agrees] in H. apply andb_prop in H as [_ H]. simpl.
    now rewrite (IH s H).
Qed.

(** X13: a pattern without [*] matches the paths that agree with it code
    unit by code unit, [?] standing for any one code unit but the
    separator, line terminators included; so the paths it matches have
    its length. *)
Theorem question_mark_one_unit (pattern path : string) :
  pattern <> "" ->
  includes "*" pattern = false ->
  matchGlob pattern path = Ok (agrees pattern path)
  /\ (matchGlob pattern path = Ok true ->
      String.length path = String.length pattern).
Proof.
  intros N H1.
  assert (E : matchGlob pattern path = Ok (agrees pattern path)).
  { rewrite matchGlob_nonempty by assumption.
    rewrite (globTerms_plain _ (no_star_plain _ H1)).
    now rewrite matchesAt_agrees. }
  split; [exact E|]. rewrite E. intros H. injection H as H.
  now apply agrees_length.
Qed.

Lemma question_mark_one_unit_witness :
  (matchGlob "a?/?.c" ("ab/" ++ lineFeed ++ ".c") = Ok true)
  /\ (matchGlob "a?c" "a/c" = Ok false).
Proof.
  split.
  - apply (question_mark_one_unit "a?/?.c" ("ab/" ++ lineFeed ++ ".c"));
      [discriminate|reflexivity].
  - apply (question_mark_one_unit "a?c" "a/c"); [discriminate|reflexivity].
Defined.


Lemma final_doublestar_witness :
  matchGlob ("src" ++ "/**") ("src/" ++ "a/b.js") = Ok true.
Proof.
  apply (final_doublestar "src" "src/" "a/b.js").
  - vm_compute. reflexivity.
  - reflexivity.
Defined.

Lemma leading_doublestar_witness :
  matchGlob ("**/" ++ "*.go") ("a/b/" ++ "c.go") = Ok true.
Proof.
  apply (leading_doublestar "*.go" "a/b/" "c.go").
  - discriminate.
  - vm_compute. reflexivity.
  - right. exists "a/b". split; reflexivity.
Defined.

Lemma middle_doublestar_witness :
  matchGlob ("a" ++ "/**/" ++ "z") ("a/" ++ "" ++ "z") = Ok true
  /\ matchGlob ("a" ++ "/**/" ++ "z") ("a/" ++ "b/c/" ++ "z") = Ok true.
Proof.
  split.
  - apply (middle_doublestar "a" "z" "a/" "" "z").
    + discriminate.
    + vm_compute. reflexivity.
    + vm_compute. reflexivity.
    + left. reflexivity.
  - apply (middle_doublestar "a" "z" "a/" "b/c/" "z").
    + discriminate.
    + vm_compute. reflexivity.
    + vm_compute. reflexivity.
    + right. exists "b/c". split; reflexivity.
Defined.

End GlobMore.

Module DiffMore.

Import JS JSFacts Glob Diff DiffTerms DiffFacts UrlFacts.
Local Open Scope string_scope.

Lemma unifiedDiffOf_from (files : list file) (acc : string) :
  fold_left (fun unifiedDiff f => unifiedDiff ++ section f) files acc
  = acc ++ unifiedDiffOf files.
Proof.
  unfold unifiedDiffOf. revert acc.
  induction files as [|f files IH]; intros acc; cbn [fold_left].
  - now rewrite append_nil_r.
  - rewrite (IH (acc ++ section f)), (IH ("" ++ section f)).
    now rewrite append_assoc.
Qed.

Lemma unifiedDiffOf_cons (f : file) (files : list file) :
  unifiedDiffOf (f :: files) = section f ++ unifiedDiffOf files.
Proof. unfold unifiedDiffOf at 1. cbn [fold_left]. apply unifiedDiffOf_from. Qed.

Lemma append_empty (a b : string) : a ++ b = "" <-> a = "" /\ b = "".
Proof.
  split.
  - destruct a; [now split|discriminate].
  - now intros [-> ->].
Qed.

(** X18: the unified diff is the sections of the files, each as the loop
    writes it, one after the other in the order of the list; so the diff
    of two lists in a row is the diff of the first followed by the diff of
    the second. *)
Theorem unifiedDiff_concatenation (files files' : list file) :
  unifiedDiffOf files = String.concat "" (map section files)
  /\ unifiedDiffOf (files ++ files')
     = unifiedDiffOf files ++ unifiedDiffOf files'.
Proof.
  split.
  - induction files as [|f files IH]; [reflexivity|].
    rewrite unifiedDiffOf_cons, IH. cbn [map String.concat].
    destruct (map section files) as [|x xs] eqn:M; [|reflexivity].
    cbn [String.concat]. apply append_nil_r.
  - unfold unifiedDiffOf at 1. rewrite fold_left_app.
    fold (unifiedDiffOf files). apply unifiedDiffOf_from.
Qed.

(** The files that the loop skips. *)
Lemma section_skipped (f : file) :
  section f = ""
  <-> patch f = None /\ status f <> "removed" /\ status f <> "added".
Proof.
  unfold section.
  destruct (patch f) as [p|]; cbn [strictEq andb].
  - split; [|now intros [H _]].
    destruct (String.eqb (status f) "removed"); [discriminate|].
    destruct (String.eqb (status f) "added"); [discriminate|].
    destruct (String.eqb (status f) "renamed"); discriminate.
  - destruct (String.eqb (status f) "removed") eqn:R; cbn [negb andb].
    + apply String.eqb_eq in R. split; [discriminate|]. now intros (_ & H & _).
    + apply String.eqb_neq in R.
      destruct (String.eqb (status f) "added") eqn:A; cbn [negb].
      * apply String.eqb_eq in A. split; [discriminate|]. now intros (_ & _ & H).
      * apply String.eqb_neq in A. now split.
Qed.

(** X19: a file gives an empty section exactly when it has no patch and is
    neither removed nor added; every other section starts with the
    [diff --git a/] line and ends with a line feed. *)
Theorem section_shape (f : file) :
  (section f = ""
   <-> patch f = None /\ status f <> "removed" /\ status f <> "added")
  /\ (section f <> "" ->
      startsWith "diff --git a/" (section f) = true
      /\ lastChar (section f) = Some "010"%char).
Proof.
  split; [apply section_skipped|]. intros N.
  assert (S : ~ (patch f = None /\ status f <> "removed" /\ status f <> "added")).
  { intros H. now apply section_skipped in H. }
  clear N. unfold section.
  destruct (strictEq (patch f) None
            && negb (String.eqb (status f) "removed")
            && negb (String.eqb (status f) "added")) eqn:K.
  - exfalso. apply S.
    apply andb_prop in K as [K A]. apply andb_prop in K as [P R].
    destruct (patch f); [discriminate P|].
    apply negb_true_iff in A, R. now apply String.eqb_neq in A, R.
  - split.
    + destruct (String.eqb (status f) "removed"); [reflexivity|].
      destruct (String.eqb (status f) "added"); [reflexivity|].
      destruct (String.eqb (status f) "renamed"); reflexivity.
    + destruct (truthy (patch f)).
      * rewrite lastChar_append by apply append_not_empty.
        unfold nl. now rewrite lastChar_append by discriminate.
      * rewrite append_nil_r.
        destruct (String.eqb (status f) "removed");
          [|destruct (String.eqb (status f) "added");
            [|destruct (String.eqb (status f) "renamed")]];
          rewrite ?append_nil_r;
          repeat (rewrite lastChar_append; [|try apply append_not_empty;
                                             try discriminate]);
          reflexivity.
Qed.

Lemma section_shape_witness :
  startsWith "diff --git a/"
    (section (mkFile "b.png" (Some "a.png") "renamed" (Some "") None None None None))
  = true
  /\ lastChar
       (section (mkFile "b.png" (Some "a.png") "renamed" (Some "") None None None None))
     = Some "010"%char.
Proof.
  apply (section_shape
           (mkFile "b.png" (Some "a.png") "renamed" (Some "") None None None None)).
  intros H. vm_compute in H. discriminate H.
Defined.

(** X20: the unified diff is empty, and so nothing is rendered under the
    statistics, exactly when every file is skipped: without a patch and
    neither removed nor added. *)
Theorem unifiedDiff_empty (files : list file) :
  unifiedDiffOf files = ""
  <-> Forall (fun f => patch f = None
                       /\ status f <> "removed" /\ status f <> "added") files.
Proof.
  induction files as [|f files IH].
  - split; [constructor|reflexivity].
  - rewrite unifiedDiffOf_cons, append_empty, IH, section_skipped. split.
    + intros [H1 H2]. now constructor.
    + intros H. inversion H; subst. now split.
Qed.

End DiffMore.

Module UrlMore.

Import JS JSFacts Url UrlTerms UrlFacts.
Local Open Scope string_scope.

Lemma dropLast_snoc (a : string) (c : ascii) : dropLast (a ++ String c "") = a.
Proof.
  induction a as [|x a IH]; [reflexivity|].
  cbn [append dropLast]. rewrite IH. now destruct a.
Qed.

Lemma snoc_dropLast (c : ascii) (s : string) :
  endsWithChar c s = true -> s = dropLast s ++ String c "".
Proof.
  unfold endsWithChar. induction s as [|x s IH]; [discriminate|].
  destruct s as [|y s].
  - cbn. intros H. apply Ascii.eqb_eq in H. now subst.
  - intros H. change (dropLast (String x (String y s)))
      with (String x (dropLast (String y s))).
    cbn [append]. f_equal. apply IH. exact H.
Qed.

Lemma startsWith_slice (p s : string) :
  startsWith p s = true -> s = p ++ sliceFrom (String.length p) s.
Proof.
  revert s. induction p as [|a p IH]; intros s H.
  - now destruct s.
  - destruct s as [|b s]; [discriminate H|]. cbn [startsWith] in H.
    apply andb_prop in H as [E H]. apply Ascii.eqb_eq in E. subst b.
    cbn. f_equal. now apply IH.
Qed.

Lemma countChar_absent (c : ascii) (s : string) :
  includes c s = false -> countChar c s = 0.
Proof.
  induction s as [|a s IH]; [reflexivity|]. intros H.
  apply includes_cons_false in H as [Ha Hs]. simpl.
  now rewrite (IH Hs), Ha.
Qed.

Lemma splitFrom_dotdot_not_nil (k : nat) (s : string) : splitFrom ".." k s <> [].
Proof.
  revert k. induction s as [|a s IH]; intros k; [discriminate|].
  cbn [splitFrom]. destruct k; [|apply IH].
  destruct (startsWith ".." (String a s)); [discriminate|].
  destruct (splitFrom ".." 0 s); discriminate.
Qed.

Lemma join_consHead (sep : string) (a : ascii) (l : list string) :
  l <> [] -> join sep (consHead a l) = String a (join sep l).
Proof. destruct l as [|x [|y l]]; [contradiction|reflexivity..]. Qed.

Lemma join_split_dotdot_upto (n : nat) (s : string) :
  String.length s <= n -> join ".." (split ".." s) = s.
Proof.
  unfold split. revert s. induction n as [|n IH]; intros s L.
  - destruct s; [reflexivity|simpl in L; lia].
  - destruct s as [|a s]; [reflexivity|]. simpl in L.
    cbn [splitFrom]. destruct (startsWith ".." (String a s)) eqn:E.
    + destruct s as [|b s]; [simpl in E; now rewrite andb_false_r in E|].
      cbn [startsWith] in E. rewrite andb_true_r in E.
      apply andb_prop in E as [Ea Eb].
      apply Ascii.eqb_eq in Ea, Eb. subst a b.
      change (splitFrom ".." (String.length ".." - 1) (String "." s))
        with (splitFrom ".." 0 s).
      pose proof (splitFrom_dotdot_not_nil 0 s) as N.
      assert (J : join ".." (splitFrom ".." 0 s) = s)
        by (apply IH; simpl in L; lia).
      destruct (splitFrom ".." 0 s) as [|x xs]; [contradiction|].
      change (join ".." ("" :: x :: xs)) with (".." ++ join ".." (x :: xs)).
      now rewrite J.
    + rewrite join_consHead by apply splitFrom_dotdot_not_nil.
      f_equal. apply IH. lia.
Qed.

Lemma join_split_dotdot (s : string) : join ".." (split ".." s) = s.
Proof. now apply (join_split_dotdot_upto (String.length s)). Qed.

(** X21: one slash at the end of the path is dropped before the path is
    read: a path and the same path followed by a slash give the same
    form. *)
Theorem trailing_slash_ignored (rest : string) (params : list (string * string)) :
  endsWithChar "/" rest = false ->
  fromPath (urlPrefix ++ rest ++ "/") params
  = fromPath (urlPrefix ++ rest) params.
Proof.
  intros E. unfold fromPath.
  replace (startsWith urlPrefix (urlPrefix ++ rest ++ "/")) with true
    by reflexivity.
  replace (startsWith urlPrefix (urlPrefix ++ rest)) with true by reflexivity.
  replace (sliceFrom (String.length urlPrefix) (urlPrefix ++ rest ++ "/"))
    with (rest ++ "/") by reflexivity.
  replace (sliceFrom (String.length urlPrefix) (urlPrefix ++ rest))
    with rest by reflexivity.
  rewrite (endsWithChar_append "/" rest "/") by discriminate.
  change (endsWithChar "/" "/") with true. cbv iota.
  rewrite dropLast_snoc, E.
  replace (String.length urlPrefix <? String.length (urlPrefix ++ rest ++ "/"))%nat
    with true.
  2:{ symmetry. apply Nat.ltb_lt. rewrite !length_append. simpl. lia. }
  destruct rest as [|c rest]; [reflexivity|].
  replace (String.length urlPrefix <? String.length (urlPrefix ++ String c rest))%nat
    with true; [reflexivity|].
  symmetry. apply Nat.ltb_lt. rewrite !length_append. simpl. lia.
Qed.

Lemma trailing_slash_ignored_witness :
  fromPath (urlPrefix ++ "o/r/main..feat/x" ++ "/") [("filter", "*.ts")]
  = Some (mkForm "o/r" "main" "feat/x" "*.ts").
Proof.
  rewrite (trailing_slash_ignored "o/r/main..feat/x" [("filter", "*.ts")]);
    reflexivity.
Defined.

(** X22: a form that is read from a path spells the path back: the path is
    the prefix, then the repository, then the base after a slash when
    there is one, then [..] and the head, then possibly one slash; the
    repository has exactly one slash, and the filter is the [filter]
    parameter. *)
Theorem fromPath_spells_path (pathname : string)
                             (params : list (string * string)) (f : form) :
  fromPath pathname params = Some f ->
  exists path,
    (pathname = urlPrefix ++ path \/ pathname = urlPrefix ++ path ++ "/")
    /\ (path = repo f ++ ".." ++ head f
        \/ path = repo f ++ "/" ++ base f ++ ".." ++ head f)
    /\ countChar "/" (repo f) = 1
    /\ pathFilter f = orElse (get params "filter") "".
Proof.
  unfold fromPath.
  destruct (startsWith urlPrefix pathname) eqn:P; [|discriminate].
  apply startsWith_slice in P. cbn [andb].
  destruct (String.length urlPrefix <? String.length pathname)%nat;
    [|discriminate].
  set (raw := sliceFrom (String.length urlPrefix) pathname) in *.
  set (path := if endsWithChar "/" raw then dropLast raw else raw).
  intros H. exists path.
  assert (A : pathname = urlPrefix ++ path \/ pathname = urlPrefix ++ path ++ "/").
  { unfold path. destruct (endsWithChar "/" raw) eqn:E.
    - right. now rewrite <- (snoc_dropLast "/" raw E).
    - now left. }
  split; [exact A|]. clear A P. clearbody path. clear raw.
  pose proof (join_split_dotdot path) as J.
  destruct (split ".." path) as [|part0 [|part1 [|x l]]]; try discriminate H.
  pose proof (join_split "/" part0) as J0.
  pose proof (split_pieces "/" part0) as F0.
  destruct (split "/" part0) as [|segment0 [|segment1 after]];
    try discriminate H.
  injection H as H. subst f. cbn [repo Url.base Url.head pathFilter].
  inversion F0 as [|? ? S0 F1]; subst. inversion F1 as [|? ? S1 F2]; subst.
  repeat split.
  - change (join ".." ?l) with (join "/" (segment0 :: segment1 :: after)
                                 ++ ".." ++ part1).
    destruct after as [|y ys].
    + left. cbn [join]. now rewrite !append_assoc.
    + right.
      change (join "/" (segment0 :: segment1 :: y :: ys))
        with (segment0 ++ "/" ++ segment1 ++ "/" ++ join "/" (y :: ys)).
      now rewrite !append_assoc.
  - rewrite countChar_append. simpl.
    now rewrite (countChar_absent _ _ S0), (countChar_absent _ _ S1).
Qed.

Lemma fromPath_spells_path_witness :
  exists path,
    ("/gh-dir-diff/o/r/rel/1.0..feat/x/" = urlPrefix ++ path
     \/ "/gh-dir-diff/o/r/rel/1.0..feat/x/" = urlPrefix ++ path ++ "/")
    /\ (path = "o/r" ++ ".." ++ "feat/x"
        \/ path = "o/r" ++ "/" ++ "rel/1.0" ++ ".." ++ "feat/x")
    /\ countChar "/" "o/r" = 1
    /\ "" = orElse (get [] "filter") "".
Proof.
  exact (fromPath_spells_path "/gh-dir-diff/o/r/rel/1.0..feat/x/" []
           (mkForm "o/r" "rel/1.0" "feat/x" "") eq_refl).
Defined.

(** X24: the URL that [updateURL] writes depends on the values of the form
    only through their trimmed text: white space around a value is never
    written to the URL. *)
Theorem shareURL_trimmed (f : form) :
  shareURL (mkForm (trim (repo f)) (trim (base f)) (trim (head f))
                   (trim (pathFilter f)))
  = shareURL f.
Proof.
  unfold shareURL. cbn [repo base head pathFilter].
  now rewrite !trim_idempotent.
Qed.

End UrlMore.

Module AppMore.

Import JS JSFacts Url UrlTerms UrlFacts AppAuth WorkerFacts.
Local Open Scope string_scope.

Lemma decodeComponent_tokenChar (c : ascii) (rest : string) :
  isTokenChar c = true ->
  decodeComponent (String c rest) = option_map (String c) (decodeComponent rest).
Proof.
  destruct c as [[] [] [] [] [] [] [] []]; intros H;
    try discriminate H; reflexivity.
Qed.

Lemma decodeComponent_token (s : string) :
  forallChars isTokenChar s = true -> decodeComponent s = Some s.
Proof.
  induction s as [|c s IH]; [reflexivity|]. cbn [forallChars]. intros H.
  apply andb_prop in H as [Hc Hs].
  now rewrite (decodeComponent_tokenChar c s Hc), (IH Hs).
Qed.

Lemma tokenChar_facts (c : ascii) :
  isTokenChar c = true -> Ascii.eqb c "&" = false.
Proof. destruct c as [[] [] [] [] [] [] [] []]; intros H; try discriminate H; reflexivity. Qed.

Lemma replaceState_ownPath (b : browser) (pathname : string) :
  ownPath pathname = true ->
  replaceState b pathname
  = Some (mkBrowser "" pathname "" (github_token b) (accessToken b)).
Proof.
  unfold ownPath. intros H.
  apply andb_prop in H as [H D]. apply andb_prop in H as [H P].
  apply andb_prop in H as [H S3]. apply andb_prop in H as [S1 S2].
  assert (Hh : includes "#" pathname = false) by (now apply pathChars_exclude).
  assert (Hq : includes "?" pathname = false) by (now apply pathChars_exclude).
  unfold replaceState, parseURL. rewrite Hh.
  rewrite (cutAt_absent "#" pathname Hh), (cutAt_absent "?" pathname Hq).
  now rewrite S1, S2, S3, P, D.
Qed.

(** X23: the page that is opened with the fragment [#access_token=<token>],
    as the worker's [/callback] redirects to it, stores the token as it is
    and clears the fragment and the query, for a token made of letters,
    digits and underscores, and a pathname that starts with one slash, has
    no dot segment and is made of code units that the URL parser leaves as
    they are, so that [history.replaceState] reads it as itself. *)
Theorem token_picked_up (token pathname search : string)
                        (stored current : option string) :
  token <> "" ->
  forallChars isTokenChar token = true ->
  ownPath pathname = true ->
  handleOAuthCallback
    (mkBrowser ("#access_token=" ++ token) pathname search stored current)
  = Some (mkBrowser "" pathname "" (Some token) (Some token)).
Proof.
  intros N T P. unfold handleOAuthCallback. cbn [hash path query].
  replace (includesStr "access_token=" ("#access_token=" ++ token)) with true.
  2:{ symmetry. simpl. reflexivity. }
  change (sliceFrom 1 ("#access_token=" ++ token))
    with ("access_token" ++ String "=" token).
  unfold searchParams.
  change (match "access_token" ++ String "=" token with
          | String "?" s' => s'
          | _ => "access_token" ++ String "=" token
          end) with ("access_token" ++ String "=" token).
  assert (A : includes "&" token = false)
    by (apply (forall_exclude isTokenChar); [apply tokenChar_facts|exact T]).
  rewrite (split_absent "&" ("access_token" ++ String "=" token)) by exact A.
  change (decodePairs ["access_token" ++ String "=" token])
    with (let '(name, value) := cutAt "=" ("access_token" ++ String "=" token) in
          match decodeComponent name,
                decodeComponent (match value with Some v => v | None => "" end),
                decodePairs [] with
          | Some n, Some v, Some l => Some ((n, v) :: l)
          | _, _, _ => None
          end).
  rewrite (cutAt_first "=" "access_token" token eq_refl).
  rewrite (decodeComponent_token token T).
  change (decodeComponent "access_token") with (Some "access_token").
  cbn [decodePairs get String.eqb]. change (String.eqb "access_token" "access_token") with true.
  cbv iota. rewrite (replaceState_ownPath _ pathname P).
  cbn [github_token accessToken].
  destruct token; [contradiction|reflexivity].
Qed.

Lemma token_picked_up_witness :
  handleOAuthCallback
    (mkBrowser ("#access_token=" ++ "gho_16C7e42F292c69") "/gh-dir-diff/" ""
               None None)
  = Some (mkBrowser "" "/gh-dir-diff/" ""
                    (Some "gho_16C7e42F292c69") (Some "gho_16C7e42F292c69")).
Proof.
  apply (token_picked_up "gho_16C7e42F292c69" "/gh-dir-diff/" "" None None);
    [discriminate|reflexivity|reflexivity].
Defined.

End AppMore.

